(** * schema-manager: a shallow embedding of [schema-manager.go]

    The program is a command-line tool with four commands ([init], [list],
    [search], [status]) that keep a clone of a fixed repository under the
    cache directory and inspect it.  Every command is a sequence of calls
    to the operating system ([os.Stat], [os.RemoveAll], [os.MkdirAll],
    [filepath.Walk]), to the version-control library ([git.PlainClone],
    [git.PlainOpen], [Remote.List], [Repository.Head]) and to the regular
    expression library, with messages printed in between.

    The embedding keeps that shape: the functions of the source are
    programs of a small state-and-exit monad over a [World] (the cache
    directory on disk, the lines printed so far, the log of library calls),
    and the libraries are modelled by what they do to that world. *)

From Stdlib Require Import List String Ascii Bool Arith Lia NArith.
From Stdlib Require Import Strings.Byte.
From Stdlib Require Import Permutation.
Import ListNotations.
Local Open Scope string_scope.
Local Open Scope list_scope.

Set Implicit Arguments.

(** ** Go values *)

(** A Go [error] value is kept by its message, which is all the program
    ever does with one ([%v]); [nil] is [None]. *)
Definition error := string.

(** [strings.HasSuffix(s, suffix)]:
    [len(s) >= len(suffix) && s[len(s)-len(suffix):] == suffix]. *)
Definition HasSuffix (s suffix : string) : bool :=
  Nat.leb (String.length suffix) (String.length s) &&
  String.eqb
    (substring (String.length s - String.length suffix)
               (String.length suffix) s)
    suffix.

(** ** Paths

    A cleaned path is its list of elements; [Join] adds one element, [Rel]
    drops the elements shared with the base and climbs with [".."] for
    every element of the base that is left, as [filepath.Rel] does on
    cleaned paths.  [show_rel] is the string [Rel] returns ("." for the
    empty result) and [show_abs] the string of a rooted path. *)
Definition Path := list string.

Definition Join (p : Path) (name : string) : Path := p ++ [name].

Fixpoint Rel (basepath targpath : Path) : Path :=
  match basepath, targpath with
  | b :: bs, t :: ts =>
      if String.eqb b t then Rel bs ts
      else map (fun _ => "..") basepath ++ targpath
  | [], _ => targpath
  | _ :: _, [] => map (fun _ => "..") basepath
  end.

Definition show_rel (p : Path) : string :=
  match p with
  | [] => "."
  | _ => String.concat "/" p
  end.

Definition show_abs (p : Path) : string :=
  String.append "/" (String.concat "/" p).

(** The last element of a path ([FileInfo.Name] of what it names). *)
Definition Base (p : Path) : string := last p ".".

(** ** The directory tree on disk

    What [lstat] and a directory read report.  A node that is not a
    directory carries its mode: a regular file, a symbolic link (never
    followed by [lstat]) or something else (device, pipe, socket).  A
    directory carries the outcome of reading it and its entries by name, in
    the order the read returns them.  [Broken] is an entry whose [lstat]
    fails. *)
Inductive FileKind := Regular | Symlink | Irregular.

Inductive FileMode := ModeDir | ModeFile (kind : FileKind).

#[warnings="-register-all"]
Inductive Node :=
| File (kind : FileKind)
| Dir (readErr : option error) (entries : list (string * Node))
| Broken (lstatErr : error).

Record FileInfo := { Name : string; Mode : FileMode }.

Definition IsDir (info : FileInfo) : bool :=
  match Mode info with ModeDir => true | _ => false end.

(** ** [filepath.Walk]

    [WalkFunc] is the callback type: the path, the [FileInfo] ([nil] when
    [lstat] failed), the error met on the way, and the state the closure
    captures; it returns the new state and an error.

    [walk] visits a node: a non-directory is handed to the callback; a
    directory is read, handed to the callback together with the outcome of
    the read, and left at once when the read failed or the callback
    returned an error; otherwise its entries are visited in order and the
    first error returned ends the walk.  The two callbacks of this program
    return [nil] or the error they were handed, which comes from [lstat] or
    from the directory read, so the [SkipDir] and [SkipAll] sentinels never
    occur and are not modelled. *)
Section Walk.
Variable S : Type.

Definition WalkFunc :=
  Path -> option FileInfo -> option error -> S -> S * option error.

Variable fn : WalkFunc.

Fixpoint walk (path : Path) (name : string) (n : Node) (s : S)
  : S * option error :=
  match n with
  | File k => fn path (Some {| Name := name; Mode := ModeFile k |}) None s
  | Broken e => fn path None (Some e) s
  | Dir readErr entries =>
      let '(s1, err1) :=
        fn path (Some {| Name := name; Mode := ModeDir |}) readErr s in
      match readErr, err1 with
      | None, None =>
          (fix loop (names : list (string * Node)) (s : S)
             : S * option error :=
             match names with
             | [] => (s, None)
             | (child, c) :: rest =>
                 match walk (Join path child) child c s with
                 | (s', None) => loop rest s'
                 | (s', Some e) => (s', Some e)
                 end
             end) entries s1
      | _, _ => (s1, err1)
      end
  end.

Definition Walk (root : Path) (n : Node) (s : S) : S * option error :=
  walk root (Base root) n s.
End Walk.

(** ** The callbacks of [listFiles] and [searchFiles] *)

(** The closure passed to [filepath.Walk] by [listFiles]; its state is the
    lines printed. *)
Definition listFiles_fn (cacheDir : Path) : WalkFunc (list string) :=
  fun path info err out =>
    match err with
    | Some e => (out, Some e)
    | None =>
        (* [Walk] hands a nil [info] only together with an error *)
        match info with
        | Some info =>
            if negb (IsDir info) && HasSuffix (Name info) ".hl"
            then (out ++ [String.append "  " (show_rel (Rel cacheDir path))],
                  None)
            else (out, None)
        | None => (out, None)
        end
    end.

(** ** The regular expression library

    [regexp.Compile] and [Regexp.MatchString] are the interface the program
    uses; every statement below holds for any implementation of it. *)
Inductive result (A : Type) :=
| Ok (a : A)
| Err (e : error).
Arguments Ok {A} a.
Arguments Err {A} e.

Class RegexpEngine := {
  Regexp : Type;
  Compile : string -> result Regexp;
  MatchString : Regexp -> string -> bool
}.

(** The closure passed to [filepath.Walk] by [searchFiles]; its state is
    the lines printed and the captured variable [found]. *)
Definition searchFiles_fn `{RegexpEngine} (regex : Regexp) (cacheDir : Path)
  : WalkFunc (list string * bool) :=
  fun path info err st =>
    let '(out, found) := st in
    match err with
    | Some e => (st, Some e)
    | None =>
        (* [Walk] hands a nil [info] only together with an error *)
        match info with
        | Some info =>
            if negb (IsDir info) && HasSuffix (Name info) ".hl"
            then
              (* matched against the file name only *)
              if MatchString regex (Name info)
              then ((out ++ [String.append "  " (show_rel (Rel cacheDir path))],
                     true), None)
              else (st, None)
            else (st, None)
        | None => (st, None)
        end
    end.

(** ** The version-control library: hashes and references *)

(** [plumbing.Hash]: the bytes of an object identifier (twenty for SHA-1).
    The zero value is all zero bytes. *)
Definition Hash := list byte.

Definition ZeroHash : Hash := repeat x00 20.

Definition IsZero (h : Hash) : bool :=
  forallb (fun b => Byte.eqb b x00) h.

Fixpoint Hash_eqb (a b : Hash) : bool :=
  match a, b with
  | [], [] => true
  | x :: a', y :: b' => Byte.eqb x y && Hash_eqb a' b'
  | _, _ => false
  end.

Definition hex_digit (n : N) : ascii :=
  nth (N.to_nat n) (list_ascii_of_string "0123456789abcdef") "0"%char.

(** [Hash.String]: two lower-case hexadecimal digits per byte. *)
Fixpoint Hash_String (h : Hash) : string :=
  match h with
  | [] => EmptyString
  | b :: rest =>
      String (hex_digit (N.div (Byte.to_N b) 16))
        (String (hex_digit (N.modulo (Byte.to_N b) 16)) (Hash_String rest))
  end.

(** [h.String()[:8]].  The string of a hash has at least forty characters,
    so the slice is always in range. *)
Definition short8 (h : Hash) : string := substring 0 8 (Hash_String h).

(** [plumbing.ReferenceName]: [IsBranch] tests the prefix ["refs/heads/"];
    [Short] drops the most specific of the prefixes ["refs/heads/"],
    ["refs/tags/"], ["refs/remotes/"] and ["refs/"]. *)
Definition ReferenceName := string.

Definition IsBranch (r : ReferenceName) : bool := prefix "refs/heads/" r.

Definition strip (p s : string) : string :=
  substring (String.length p) (String.length s - String.length p) s.

Definition Short (r : ReferenceName) : string :=
  if prefix "refs/heads/" r then strip "refs/heads/" r
  else if prefix "refs/tags/" r then strip "refs/tags/" r
  else if prefix "refs/remotes/" r then strip "refs/remotes/" r
  else if prefix "refs/" r then strip "refs/" r
  else r.

(** [plumbing.Reference], by its [Name()] and [Hash()]. *)
Record Reference := { RefName : ReferenceName; RefHash : Hash }.

(** What [git.PlainOpen] gives access to: whether the remote ["origin"] is
    configured ([Repository.Remote]) and what [Repository.Head] resolves
    to. *)
Record Repository := {
  origin : option error;
  HEAD : result Hash
}.

(** ** The world

    The cache path is absent, or holds a directory tree which is or is not
    a repository that [git.PlainOpen] opens. *)
Inductive Cache :=
| Absent
| Present (root : Node) (vcs : option Repository).

(** The library calls that touch the disk or the network, logged in the
    order they are made. *)
Inductive Call :=
| CallStat | CallRemoveAll | CallMkdirAll | CallPlainClone | CallWalk
| CallPlainOpen | CallRemote | CallRemoteList | CallHead.

Record World := {
  cache : Cache;
  stdout : list string;
  calls : list Call
}.

(** What the environment decides during one run: whether [os.RemoveAll]
    and [os.MkdirAll] fail (and what a failed removal leaves behind), what
    the clone yields (on failure: the message and what is left in the
    directory), and what the remote advertises. *)
Record Env := {
  removeAll_fails : option (error * Cache);
  mkdirAll_fails : option error;
  clone_yields : (error * Node) + (Node * Repository);
  remote_advertises : result (list Reference)
}.

(** ** Programs: state passing with [os.Exit] *)
Inductive Outcome (A : Type) :=
| Done (a : A)
| Exited (code : nat).
Arguments Done {A} a.
Arguments Exited {A} code.

Definition Prog (A : Type) := World -> Outcome A * World.

Definition ret {A} (a : A) : Prog A := fun w => (Done a, w).

Definition bind {A B} (m : Prog A) (k : A -> Prog B) : Prog B :=
  fun w =>
    match m w with
    | (Done a, w') => k a w'
    | (Exited c, w') => (Exited c, w')
    end.

Declare Scope prog_scope.
Delimit Scope prog_scope with prog.
Notation "x <- m ;; k" := (bind m (fun x => k))
  (at level 61, m at next level, right associativity) : prog_scope.
Notation "m ;; k" := (bind m (fun _ => k))
  (at level 61, right associativity) : prog_scope.
Local Open Scope prog_scope.

Definition os_Exit {A} (code : nat) : Prog A := fun w => (Exited code, w).

(** [fmt.Println(line)], and [fmt.Printf] with a format that ends in a
    newline: one more line on standard output. *)
Definition Println (line : string) : Prog unit :=
  fun w => (Done tt, {| cache := cache w;
                        stdout := stdout w ++ [line];
                        calls := calls w |}).

Definition log (c : Call) : Prog unit :=
  fun w => (Done tt, {| cache := cache w;
                        stdout := stdout w;
                        calls := calls w ++ [c] |}).

Definition get_cache : Prog Cache := fun w => (Done (cache w), w).

Definition set_cache (c : Cache) : Prog unit :=
  fun w => (Done tt, {| cache := c; stdout := stdout w; calls := calls w |}).

Definition get_stdout : Prog (list string) := fun w => (Done (stdout w), w).

Definition set_stdout (out : list string) : Prog unit :=
  fun w => (Done tt, {| cache := cache w; stdout := out; calls := calls w |}).

(** ** The library calls, as programs *)
Section Program.
Context `{RegexpEngine}.
Variable env : Env.

(** The global variable [cacheDir], set once by [main]. *)
Variable cacheDir : Path.

(** [os.Stat(cacheDir)], by its error. *)
Definition os_Stat : Prog (option error) :=
  log CallStat ;;
  c <- get_cache ;;
  match c with
  | Absent =>
      ret (Some (String.append "stat "
                   (String.append (show_abs cacheDir)
                                  ": no such file or directory")))
  | Present _ _ => ret None
  end.

(** [os.RemoveAll(cacheDir)]: nothing is left when it succeeds. *)
Definition os_RemoveAll : Prog (option error) :=
  log CallRemoveAll ;;
  match removeAll_fails env with
  | Some (e, remains) => set_cache remains ;; ret (Some e)
  | None => set_cache Absent ;; ret None
  end.

(** [os.MkdirAll(cacheDir, 0755)]: an existing directory is left as it
    is, an absent path becomes an empty directory, anything else in the
    way is an error. *)
Definition os_MkdirAll : Prog (option error) :=
  log CallMkdirAll ;;
  c <- get_cache ;;
  match c with
  | Present (Dir _ _) _ => ret None
  | Present _ _ =>
      ret (Some (String.append "mkdir "
                   (String.append (show_abs cacheDir) ": not a directory")))
  | Absent =>
      match mkdirAll_fails env with
      | Some e => ret (Some e)
      | None => set_cache (Present (Dir None []) None) ;; ret None
      end
  end.

(** [git.PlainClone(cacheDir, &git.CloneOptions{URL: repoURL})], by its
    error. *)
Definition git_PlainClone : Prog (option error) :=
  log CallPlainClone ;;
  match clone_yields env with
  | inl (e, remains) => set_cache (Present remains None) ;; ret (Some e)
  | inr (tree, repo) => set_cache (Present tree (Some repo)) ;; ret None
  end.

(** [filepath.Walk(cacheDir, fn)] for a closure whose captured state
    starts as [s]: the final state and the error returned.  An absent
    root is handed to the closure with the error of [lstat]. *)
Definition filepath_Walk {S} (fn : WalkFunc S) (s : S)
  : Prog (S * option error) :=
  log CallWalk ;;
  c <- get_cache ;;
  match c with
  | Absent =>
      ret (Walk fn cacheDir
             (Broken (String.append "lstat "
                        (String.append (show_abs cacheDir)
                                       ": no such file or directory"))) s)
  | Present root _ => ret (Walk fn cacheDir root s)
  end.

(** [git.PlainOpen(cacheDir)]. *)
Definition git_PlainOpen : Prog (result Repository) :=
  log CallPlainOpen ;;
  c <- get_cache ;;
  match c with
  | Present _ (Some repo) => ret (Ok repo)
  | _ => ret (Err "repository does not exist")
  end.

(** [repo.Remote("origin")], by its error. *)
Definition repo_Remote (repo : Repository) : Prog (option error) :=
  log CallRemote ;; ret (origin repo).

(** [remote.List(&git.ListOptions{})]: asks the remote over the
    network. *)
Definition remote_List : Prog (result (list Reference)) :=
  log CallRemoteList ;; ret (remote_advertises env).

(** [repo.Head()], by the hash of the reference it returns. *)
Definition repo_Head (repo : Repository) : Prog (result Hash) :=
  log CallHead ;; ret (HEAD repo).

(** ** The functions of [schema-manager.go] *)

Definition repositoryExists : Prog bool :=
  err <- os_Stat ;;
  ret (match err with None => true | Some _ => false end).

Definition initRepository (forceClone : bool) : Prog unit :=
  (if forceClone then
     err <- os_RemoveAll ;;
     match err with
     | Some e =>
         Println (String.append "Error removing existing directory: " e) ;;
         os_Exit 1
     | None => Println "Removed existing cache directory."
     end
   else ret tt) ;;
  err <- os_Stat ;;
  match err, forceClone with
  | None, false =>
      Println (String.append "Repository already exists at: "
                 (show_abs cacheDir)) ;;
      Println "Use -f flag to force re-clone."
  | _, _ =>
      err <- os_MkdirAll ;;
      match err with
      | Some e =>
          Println (String.append "Error creating directory: " e) ;;
          os_Exit 1
      | None =>
          Println (String.append "Cloning repository to: "
                     (show_abs cacheDir)) ;;
          err <- git_PlainClone ;;
          match err with
          | Some e =>
              Println (String.append "Error cloning repository: " e) ;;
              os_Exit 1
          | None => Println "Repository cloned successfully!"
          end
      end
  end.

Definition listFiles : Prog unit :=
  ex <- repositoryExists ;;
  if negb ex then
    Println "Repository not found. Run 'schema-manager init' first."
  else
    Println "Listing .hl files in cache directory:" ;;
    Println "=====================================" ;;
    out <- get_stdout ;;
    r <- filepath_Walk (listFiles_fn cacheDir) out ;;
    set_stdout (fst r) ;;
    match snd r with
    | Some e => Println (String.append "Error walking directory: " e)
    | None => ret tt
    end.

Definition searchFiles (pattern : string) : Prog unit :=
  ex <- repositoryExists ;;
  if negb ex then
    Println "Repository not found. Run 'schema-manager init' first."
  else
    match Compile pattern with
    | Err e => Println (String.append "Invalid regex pattern: " e)
    | Ok regex =>
        Println (String.append "Searching for .hl files matching pattern: "
                   pattern) ;;
        Println "==================================================" ;;
        out <- get_stdout ;;
        r <- filepath_Walk (searchFiles_fn regex cacheDir) (out, false) ;;
        let '((out', found), err) := r in
        set_stdout out' ;;
        match err with
        | Some e => Println (String.append "Error walking directory: " e)
        | None =>
            if negb found then
              Println "No .hl files found matching the pattern."
            else ret tt
        end
    end.

(** The loop of [checkRepository] over the references: the hash of the
    first branch reference whose short name is ["main"], the zero value
    of [remoteMainHash] when the loop ends without a [break]. *)
Fixpoint remoteMain (refs : list Reference) : Hash :=
  match refs with
  | [] => ZeroHash
  | ref :: rest =>
      if IsBranch (RefName ref) && String.eqb (Short (RefName ref)) "main"
      then RefHash ref
      else remoteMain rest
  end.

Definition checkRepository : Prog unit :=
  ex <- repositoryExists ;;
  if negb ex then
    Println "Repository not found. Run 'schema-manager init' first."
  else
    r <- git_PlainOpen ;;
    match r with
    | Err e => Println (String.append "Error opening repository: " e)
    | Ok repo =>
        err <- repo_Remote repo ;;
        match err with
        | Some e => Println (String.append "Error getting remote: " e)
        | None =>
            r <- remote_List ;;
            match r with
            | Err e =>
                Println (String.append "Error listing remote refs: " e)
            | Ok refs =>
                r <- repo_Head repo ;;
                match r with
                | Err e => Println (String.append "Error getting HEAD: " e)
                | Ok head =>
                    let remoteMainHash := remoteMain refs in
                    if IsZero remoteMainHash then
                      Println "Could not find remote main branch."
                    else if Hash_eqb head remoteMainHash then
                      Println "✓ Local repository is up to date with remote."
                    else
                      Println "✗ Local repository is behind remote." ;;
                      Println (String.append "  Local HEAD:  "
                                 (short8 head)) ;;
                      Println (String.append "  Remote main: "
                                 (short8 remoteMainHash)) ;;
                      Println "  Run 'schema-manager init -f' to update."
                end
            end
        end
    end.
End Program.

(** ** [main]: the dispatcher

    The command line after the parsing done by the command library: one of
    the four commands with its flag or argument. *)
Inductive Command :=
| CmdInit (force : bool)
| CmdList
| CmdSearch (pattern : string)
| CmdStatus.

Definition run_command `{RegexpEngine} (env : Env) (cacheDir : Path)
    (cmd : Command) : Prog unit :=
  match cmd with
  | CmdInit force => initRepository env cacheDir force
  | CmdList => listFiles cacheDir
  | CmdSearch pattern => searchFiles cacheDir pattern
  | CmdStatus => checkRepository env cacheDir
  end.

(** [main] for a command line that parses: the exit status and the world
    left behind.  [homeDir] is what [os.UserHomeDir] returns. *)
Definition main `{RegexpEngine} (env : Env) (homeDir : result Path)
    (cmd : Command) (w : World) : nat * World :=
  match homeDir with
  | Err e =>
      match Println (String.append "Error getting user home directory: " e) w
      with (_, w') => (1, w') end
  | Ok home =>
      let cacheDir := Join (Join home ".opencmd") "commands" in
      match run_command env cacheDir cmd w with
      | (Done _, w') => (0, w')
      | (Exited code, w') => (code, w')
      end
  end.

(** ** Specification vocabulary *)

(** [entry_at root p n]: following the names [p] down from [root] leads to
    the node [n]. *)
Inductive entry_at : Node -> Path -> Node -> Prop :=
| at_here : forall n, entry_at n [] n
| at_child : forall readErr entries name c p n,
    In (name, c) entries ->
    entry_at c p n ->
    entry_at (Dir readErr entries) (name :: p) n.

(** The candidates of a scan: what the walk hands to a callback that stops
    at the first error, in order, and that error. *)
Fixpoint reach (path : Path) (name : string) (n : Node)
  : list (Path * FileInfo) * option error :=
  match n with
  | File k => ([(path, {| Name := name; Mode := ModeFile k |})], None)
  | Broken e => ([], Some e)
  | Dir (Some e) _ => ([], Some e)
  | Dir None entries =>
      let '(vs, err) :=
        (fix loop (names : list (string * Node))
           : list (Path * FileInfo) * option error :=
           match names with
           | [] => ([], None)
           | (child, c) :: rest =>
               match reach (Join path child) child c with
               | (vs, None) => let '(vs', err) := loop rest in (vs ++ vs', err)
               | (vs, Some e) => (vs, Some e)
               end
           end) entries in
      ((path, {| Name := name; Mode := ModeDir |}) :: vs, err)
  end.

(** The candidates of a sequence of sub-scans, up to the first error. *)
Fixpoint seq_reach (rs : list (list (Path * FileInfo) * option error))
  : list (Path * FileInfo) * option error :=
  match rs with
  | [] => ([], None)
  | (vs, None) :: rest => let '(vs', err) := seq_reach rest in (vs ++ vs', err)
  | (vs, Some e) :: _ => (vs, Some e)
  end.

Definition reach_child (path : Path) (x : string * Node) :=
  reach (Join path (fst x)) (fst x) (snd x).

(** A candidate qualifies when it is not a directory and its name ends in
    [".hl"]. *)
Definition qualifies (v : Path * FileInfo) : bool :=
  negb (IsDir (snd v)) && HasSuffix (Name (snd v)) ".hl".

(** The line printed for a candidate. *)
Definition line_of (cacheDir : Path) (v : Path * FileInfo) : string :=
  String.append "  " (show_rel (Rel cacheDir (fst v))).

(** What the two callbacks do with a candidate. *)
Definition list_step (cacheDir : Path) (out : list string)
    (v : Path * FileInfo) : list string :=
  if qualifies v then out ++ [line_of cacheDir v] else out.

Definition matched `{RegexpEngine} (regex : Regexp) (v : Path * FileInfo)
  : bool :=
  qualifies v && MatchString regex (Name (snd v)).

Definition search_step `{RegexpEngine} (regex : Regexp) (cacheDir : Path)
    (st : list string * bool) (v : Path * FileInfo) : list string * bool :=
  if matched regex v then (fst st ++ [line_of cacheDir v], true) else st.

(** No unreadable directory and no entry whose [lstat] fails. *)
Fixpoint error_free (n : Node) : bool :=
  match n with
  | File _ => true
  | Broken _ => false
  | Dir (Some _) _ => false
  | Dir None entries =>
      (fix all (names : list (string * Node)) : bool :=
         match names with
         | [] => true
         | (_, c) :: rest => error_free c && all rest
         end) entries
  end.

(** The test of the loop of [checkRepository] on one reference. *)
Definition is_main_branch (ref : Reference) : bool :=
  IsBranch (RefName ref) && String.eqb (Short (RefName ref)) "main".

(** What [status] prints once the repository is open, the remote has
    answered with [refs] and the local HEAD is [head]. *)
Definition status_report (head : Hash) (refs : list Reference)
  : list string :=
  if IsZero (remoteMain refs) then ["Could not find remote main branch."]
  else if Hash_eqb head (remoteMain refs) then
    ["✓ Local repository is up to date with remote."]
  else
    ["✗ Local repository is behind remote.";
     String.append "  Local HEAD:  " (substring 0 8 (Hash_String head));
     String.append "  Remote main: "
       (substring 0 8 (Hash_String (remoteMain refs)));
     "  Run 'schema-manager init -f' to update."].

(** The cache is absent or a repository left by a completed clone. *)
Definition absent_or_cloned (c : Cache) : bool :=
  match c with
  | Absent => true
  | Present _ (Some _) => true
  | Present _ None => false
  end.

(** ** An engine to run the scenarios

    The patterns of the scenarios are literals, possibly anchored at the
    start with [^]; a bracket that is never closed is a syntax error. *)
Module LiteralRegexp.

Fixpoint contains (lit s : string) : bool :=
  prefix lit s ||
  match s with
  | EmptyString => false
  | String _ s' => contains lit s'
  end.

Fixpoint unclosed_bracket (s : string) : option string :=
  match s with
  | EmptyString => None
  | String c s' =>
      if Ascii.eqb c "["%char
      then if contains "]" s' then unclosed_bracket s' else Some s
      else unclosed_bracket s'
  end.

Definition compile (pattern : string) : result (bool * string) :=
  match unclosed_bracket pattern with
  | Some _ =>
      Err (String.append "error parsing regexp: missing closing ]: `"
             (String.append pattern "`"))
  | None =>
      match pattern with
      | String "^"%char lit => Ok (true, lit)
      | _ => Ok (false, pattern)
      end
  end.

Definition match_string (re : bool * string) (s : string) : bool :=
  if fst re then prefix (snd re) s else contains (snd re) s.

Definition engine : RegexpEngine :=
  {| Regexp := bool * string;
     Compile := compile;
     MatchString := match_string |}.

End LiteralRegexp.

(** ** Scenario data *)

(** The tree with the files [a/b.hl], [a/c.txt] and [d.hl]. *)
Definition scenario_tree : Node :=
  Dir None [("a", Dir None [("b.hl", File Regular); ("c.txt", File Regular)]);
            ("d.hl", File Regular)].

(** The same tree with an unreadable directory [c] between [a] and
    [d.hl]. *)
Definition locked_tree : Node :=
  Dir None [("a", Dir None [("b.hl", File Regular); ("c.txt", File Regular)]);
            ("c", Dir (Some "open c: permission denied") []);
            ("d.hl", File Regular)].

Definition home_cache : Path := ["home"; "user"; ".opencmd"; "commands"].

Definition fresh (c : Cache) : World :=
  {| cache := c; stdout := []; calls := [] |}.

(** An environment in which nothing fails and the remote has nothing. *)
Definition quiet_env : Env :=
  {| removeAll_fails := None;
     mkdirAll_fails := None;
     clone_yields := inr (Dir None [], {| origin := None; HEAD := Ok ZeroHash |});
     remote_advertises := Ok [] |}.

(** Two commit identifiers and a repository checked out at the first. *)
Definition commit_a : Hash :=
  [xa1; xb2; xc3; xd4; xe5; xf6; x07; x18; x29; x3a;
   x4b; x5c; x6d; x7e; x8f; x90; x01; x12; x23; x34].

Definition commit_b : Hash :=
  [x0f; x1e; x2d; x3c; x4b; x5a; x69; x78; x87; x96;
   xa5; xb4; xc3; xd2; xe1; xf0; x00; x11; x22; x33].

Definition repo_at_a : Repository := {| origin := None; HEAD := Ok commit_a |}.

(** A remote whose [main] branch is at [h], listed after [HEAD] and a
    tag. *)
Definition remote_at (h : Hash) : Env :=
  {| removeAll_fails := None;
     mkdirAll_fails := None;
     clone_yields := inr (scenario_tree, {| origin := None; HEAD := Ok h |});
     remote_advertises :=
       Ok [{| RefName := "HEAD"; RefHash := ZeroHash |};
           {| RefName := "refs/tags/main"; RefHash := commit_a |};
           {| RefName := "refs/heads/main"; RefHash := h |};
           {| RefName := "refs/heads/dev"; RefHash := commit_a |}] |}.

(** An environment in which the removal of the cache fails half way, and
    one in which the clone fails and leaves the directory empty. *)
Definition removal_fails : Env :=
  {| removeAll_fails :=
       Some ("unlinkat /home/user/.opencmd/commands/a: permission denied",
             Present scenario_tree None);
     mkdirAll_fails := None;
     clone_yields := inr (scenario_tree, repo_at_a);
     remote_advertises := Ok [] |}.

Definition clone_fails : Env :=
  {| removeAll_fails := None;
     mkdirAll_fails := None;
     clone_yields := inl ("repository not found", Dir None []);
     remote_advertises := Ok [] |}.

(** * Properties *)

(** ** Scenarios run on the embedding *)

Example list_scenario :
  stdout (snd (listFiles home_cache (fresh (Present scenario_tree None)))) =
  ["Listing .hl files in cache directory:";
   "=====================================";
   "  a/b.hl"; "  d.hl"].
Proof. reflexivity. Qed.

Example search_scenario :
  stdout (snd (searchFiles (H := LiteralRegexp.engine) home_cache "^d"
                 (fresh (Present scenario_tree None)))) =
  ["Searching for .hl files matching pattern: ^d";
   "==================================================";
   "  d.hl"].
Proof. reflexivity. Qed.

Example search_invalid_scenario :
  main (H := LiteralRegexp.engine) quiet_env (Ok ["home"; "user"])
    (CmdSearch "[invalid") (fresh (Present scenario_tree None)) =
  (0, {| cache := Present scenario_tree None;
         stdout := ["Invalid regex pattern: error parsing regexp: missing closing ]: `[invalid`"];
         calls := [CallStat] |}).
Proof. reflexivity. Qed.

(** ** Paths and trees *)

Lemma Rel_under (base p : Path) : Rel base (base ++ p) = p.
Proof.
  induction base as [|b base IH]; simpl.
  - destruct p; reflexivity.
  - rewrite String.eqb_refl. exact IH.
Qed.

Lemma Node_induction (P : Node -> Prop) :
  (forall k, P (File k)) ->
  (forall e, P (Broken e)) ->
  (forall readErr entries,
      Forall (fun x => P (snd x)) entries -> P (Dir readErr entries)) ->
  forall n, P n.
Proof.
  intros HF HB HD.
  fix IH 1.
  intros [k | readErr entries | e].
  - apply HF.
  - apply HD.
    induction entries as [|[name c] rest IHrest].
    + constructor.
    + constructor; [apply IH | exact IHrest].
  - apply HB.
Qed.

(** ** The walk under a callback that stops at the first error *)
Section Propagating.
Variable S : Type.
Variable fn : WalkFunc S.
Variable step : S -> Path * FileInfo -> S.

Hypothesis fn_visit : forall path info s,
    fn path (Some info) None s = (step s (path, info), None).
Hypothesis fn_error : forall path info e s,
    fn path info (Some e) s = (s, Some e).

Lemma walk_reach (n : Node) : forall path name s,
    walk fn path name n s =
    (fold_left step (fst (reach path name n)) s, snd (reach path name n)).
Proof.
  induction n as [k | e | readErr entries IH] using Node_induction;
    intros path name s.
  - simpl. apply fn_visit.
  - simpl. apply fn_error.
  - destruct readErr as [e|].
    + simpl. rewrite fn_error. reflexivity.
    + cbn [walk reach]. rewrite fn_visit.
      set (s1 := step s (path, {| Name := name; Mode := ModeDir |})).
      match goal with
      | |- ?wl entries s1 = (fold_left _ (fst (let '(_, _) := ?rl entries in _)) _, _) =>
          assert (Hloop : forall s, wl entries s =
                    (fold_left step (fst (rl entries)) s, snd (rl entries)))
      end.
      { clear s s1.
        induction IH as [|[child c] rest Hc _ IHrest]; intro s.
        - reflexivity.
        - simpl in Hc. rewrite Hc.
          destruct (reach (Join path child) child c) as [vs [e|]].
          + reflexivity.
          + cbn [fst snd]. rewrite IHrest.
            match goal with
            | |- context [let '(_, _) := ?l in _] =>
                destruct l as [vs' err']
            end.
            cbn [fst snd]. rewrite fold_left_app. reflexivity. }
      rewrite Hloop.
      match goal with
      | |- context [let '(_, _) := ?l in _] => destruct l as [vs err]
      end.
      reflexivity.
Qed.
End Propagating.

(** ** Candidates and tree entries *)

Lemma reach_Dir (path : Path) (name : string) (entries : list (string * Node)) :
  reach path name (Dir None entries) =
  ((path, {| Name := name; Mode := ModeDir |})
     :: fst (seq_reach (map (reach_child path) entries)),
   snd (seq_reach (map (reach_child path) entries))).
Proof.
  cbn [reach].
  match goal with
  | |- (let '(_, _) := ?rl entries in _) = _ =>
      assert (Hloop : rl entries = seq_reach (map (reach_child path) entries))
  end.
  { induction entries as [|[child c] rest IH]; [reflexivity|].
    cbn [map seq_reach]. unfold reach_child at 1. cbn [fst snd].
    destruct (reach (Join path child) child c) as [vs [e|]]; [reflexivity|].
    rewrite IH. reflexivity. }
  rewrite Hloop. destruct (seq_reach _). reflexivity.
Qed.


Lemma seq_reach_ok rs :
  snd (seq_reach rs) = None ->
  forall r, In r rs ->
    snd r = None /\ forall v, In v (fst r) -> In v (fst (seq_reach rs)).
Proof.
  induction rs as [|[vs [e|]] rest IH]; simpl.
  - intros _ r [].
  - discriminate.
  - destruct (seq_reach rest) as [vs' err]. simpl in *.
    intros Herr r [Hr|Hr].
    + subst r. split; [reflexivity|]. intros v Hv. apply in_or_app. auto.
    + destruct (IH Herr r Hr) as [Hn Hin]. split; [exact Hn|].
      intros v Hv. apply in_or_app. auto.
Qed.




(** The walk ends without an error exactly on the trees that have no
    unreadable directory and no entry whose [lstat] fails. *)
Lemma error_free_Dir (entries : list (string * Node)) :
  error_free (Dir None entries) =
  forallb (fun x => error_free (snd x)) entries.
Proof.
  cbn [error_free].
  induction entries as [|[name c] rest IH]; [reflexivity|].
  cbn [forallb snd]. rewrite <- IH. reflexivity.
Qed.

Lemma seq_reach_all_ok rs :
  (forall r, In r rs -> snd r = None) -> snd (seq_reach rs) = None.
Proof.
  induction rs as [|[vs [e|]] rest IH]; intro Hall; simpl.
  - reflexivity.
  - discriminate (Hall (vs, Some e) (or_introl eq_refl)).
  - destruct (seq_reach rest) as [vs' err] eqn:E. simpl in *.
    apply IH. intros r Hr. apply Hall. right. exact Hr.
Qed.

Lemma reach_ok_iff_error_free (n : Node) : forall path name,
    snd (reach path name n) = None <-> error_free n = true.
Proof.
  induction n as [k | e | readErr entries IH] using Node_induction;
    intros path name.
  - simpl. tauto.
  - simpl. split; discriminate.
  - destruct readErr as [e|]; [simpl; split; discriminate|].
    rewrite reach_Dir, error_free_Dir. cbn [snd].
    rewrite forallb_forall. rewrite Forall_forall in IH. split.
    + intros Herr [child c] Hc.
      destruct (seq_reach_ok _ Herr (reach_child path (child, c))) as [Hn _].
      { apply in_map. exact Hc. }
      apply (IH _ Hc (Join path child) child). exact Hn.
    + intro Hall. apply seq_reach_all_ok. intros r Hr.
      apply in_map_iff in Hr. destruct Hr as [[child c] [<- Hc]].
      apply (IH _ Hc). apply (Hall _ Hc).
Qed.

(** ** The two scans in closed form *)

Lemma fold_list_step cacheDir vs : forall out,
    fold_left (list_step cacheDir) vs out =
    out ++ map (line_of cacheDir) (filter qualifies vs).
Proof.
  induction vs as [|v vs IH]; intro out; simpl.
  - now rewrite app_nil_r.
  - rewrite IH. unfold list_step. destruct (qualifies v); simpl.
    + now rewrite <- app_assoc.
    + reflexivity.
Qed.

Lemma Walk_listFiles (cacheDir : Path) (root : Node) (out : list string) :
  Walk (listFiles_fn cacheDir) cacheDir root out =
  (out ++ map (line_of cacheDir)
            (filter qualifies (fst (reach cacheDir (Base cacheDir) root))),
   snd (reach cacheDir (Base cacheDir) root)).
Proof.
  unfold Walk.
  rewrite (walk_reach (listFiles_fn cacheDir) (list_step cacheDir)).
  - now rewrite fold_list_step.
  - intros path info s. unfold listFiles_fn, list_step, qualifies, line_of.
    cbn [fst snd].
    destruct (negb (IsDir info) && HasSuffix (Name info) ".hl"); reflexivity.
  - reflexivity.
Qed.

Section SearchScan.
Context `{RegexpEngine}.
Variable regex : Regexp.
Variable cacheDir : Path.

Lemma fold_search_step vs : forall out found,
    fold_left (search_step regex cacheDir) vs (out, found) =
    (out ++ map (line_of cacheDir) (filter (matched regex) vs),
     found || existsb (matched regex) vs).
Proof.
  induction vs as [|v vs IH]; intros out found; simpl.
  - now rewrite app_nil_r, orb_false_r.
  - unfold search_step at 2. destruct (matched regex v); cbn [fst snd].
    + rewrite IH. simpl. rewrite <- app_assoc, orb_true_r. reflexivity.
    + rewrite IH. reflexivity.
Qed.

Lemma Walk_searchFiles (root : Node) (out : list string) (found : bool) :
  Walk (searchFiles_fn regex cacheDir) cacheDir root (out, found) =
  let vs := fst (reach cacheDir (Base cacheDir) root) in
  ((out ++ map (line_of cacheDir) (filter (matched regex) vs),
    found || existsb (matched regex) vs),
   snd (reach cacheDir (Base cacheDir) root)).
Proof.
  unfold Walk.
  rewrite (walk_reach (searchFiles_fn regex cacheDir)
             (search_step regex cacheDir)).
  - now rewrite fold_search_step.
  - intros path info [o f].
    unfold searchFiles_fn, search_step, matched, qualifies, line_of.
    cbn [fst snd].
    destruct (negb (IsDir info) && HasSuffix (Name info) ".hl");
      [destruct (MatchString regex (Name info))|]; reflexivity.
  - intros path info e [o f]. reflexivity.
Qed.
End SearchScan.



(** ** Running the commands *)

(** The world after printing [lines] and making [cs] library calls. *)
Lemma listFiles_present cacheDir w root vcs :
  cache w = Present root vcs ->
  listFiles cacheDir w =
  (Done tt,
   {| cache := cache w;
      stdout :=
        stdout w ++
        ["Listing .hl files in cache directory:";
         "====================================="] ++
        fst (Walk (listFiles_fn cacheDir) cacheDir root []) ++
        match snd (Walk (listFiles_fn cacheDir) cacheDir root []) with
        | Some e => [String.append "Error walking directory: " e]
        | None => []
        end;
      calls := calls w ++ [CallStat; CallWalk] |}).
Proof.
  destruct w as [c out cs]. cbn [cache stdout calls]. intros ->.
  unfold listFiles, repositoryExists, os_Stat, filepath_Walk, bind, ret, log,
    get_cache, get_stdout, set_stdout, Println.
  cbn -[Walk listFiles_fn String.append].
  rewrite !Walk_listFiles. cbn [fst snd].
  destruct (snd (reach cacheDir (Base cacheDir) root));
    cbn -[String.append]; rewrite <- ?app_assoc; cbn -[String.append];
    rewrite ?app_nil_r; reflexivity.
Qed.

(** ** C1: what the scan of [list] returns *)


(** Listing the entries of a directory in another order keeps the files
    where they are. *)
Lemma entry_at_Permutation readErr entries entries' p k :
  Permutation entries entries' ->
  entry_at (Dir readErr entries) p (File k) ->
  entry_at (Dir readErr entries') p (File k).
Proof.
  intros HP Hentry.
  inversion Hentry as [| ? ? child c q ? Hc Hrest]; subst.
  econstructor; [|exact Hrest].
  apply (Permutation_in _ HP). exact Hc.
Qed.




(** The hypothesis of C1 in terms of the tree: the walk of [list] returns
    no error exactly when nothing in the tree is unreadable. *)
Lemma scan_ok_iff_error_free cacheDir root :
  snd (Walk (listFiles_fn cacheDir) cacheDir root []) = None <->
  error_free root = true.
Proof.
  rewrite Walk_listFiles. cbn [snd]. apply reach_ok_iff_error_free.
Qed.

(** ** C8: the listing scenario *)

(** C8 (as amended).  With exactly the files [a/b.hl], [a/c.txt] and
    [d.hl] in the cache, whatever the order in which the two directories
    list their entries, [list] prints its two header lines and then exactly
    the two lines ["  a/b.hl"] and ["  d.hl"] (each indented by two
    spaces), in the order of the walk; [a/c.txt] is not printed. *)
Theorem list_scenario_lines cacheDir vcs entries_a entries_root :
  Permutation [("b.hl", File Regular); ("c.txt", File Regular)] entries_a ->
  Permutation [("a", Dir None entries_a); ("d.hl", File Regular)]
    entries_root ->
  exists lines,
    stdout (snd (listFiles cacheDir
                   (fresh (Present (Dir None entries_root) vcs)))) =
      ["Listing .hl files in cache directory:";
       "====================================="] ++ lines /\
    Permutation ["  a/b.hl"; "  d.hl"] lines /\
    ~ In "  a/c.txt" lines.
Proof.
  intros Ha Hroot.
  apply Permutation_length_2_inv in Ha, Hroot.
  rewrite (@listFiles_present cacheDir
             (fresh (Present (Dir None entries_root) vcs))
             (Dir None entries_root) vcs eq_refl).
  rewrite Walk_listFiles.
  assert (Hrel1 : forall x, Rel cacheDir (Join cacheDir x) = [x])
    by (intro; apply Rel_under).
  assert (Hrel2 : forall x y,
             Rel cacheDir (Join (Join cacheDir x) y) = [x; y]).
  { intros. unfold Join. rewrite <- app_assoc. apply Rel_under. }
  destruct Ha as [-> | ->], Hroot as [-> | ->];
    cbn -[Rel Join]; unfold line_of; cbn [fst];
    rewrite ?Hrel1, ?Hrel2; cbn;
    eexists; (split; [reflexivity|]); split;
    try (intros [H1|[H1|[]]]; discriminate H1).
  - apply Permutation_refl.
  - apply perm_swap.
  - apply Permutation_refl.
  - apply perm_swap.
Qed.

Lemma list_scenario_lines_witness :
  exists lines,
    stdout (snd (listFiles home_cache (fresh (Present scenario_tree None)))) =
      ["Listing .hl files in cache directory:";
       "====================================="] ++ lines /\
    Permutation ["  a/b.hl"; "  d.hl"] lines /\
    ~ In "  a/c.txt" lines.
Proof.
  apply (@list_scenario_lines home_cache None
           [("b.hl", File Regular); ("c.txt", File Regular)]
           [("a", Dir None [("b.hl", File Regular); ("c.txt", File Regular)]);
            ("d.hl", File Regular)]);
    apply Permutation_refl.
Defined.

(** C8 as stated fails: the output is not just the two paths.  It has four
    lines, the first two being the header, and the paths are indented. *)
Lemma list_scenario_counterexample :
  ~ Permutation ["a/b.hl"; "d.hl"]
      (stdout (snd (listFiles home_cache
                      (fresh (Present scenario_tree None))))) /\
  In "Listing .hl files in cache directory:"
     (stdout (snd (listFiles home_cache
                     (fresh (Present scenario_tree None))))).
Proof.
  split.
  - intro HP. apply Permutation_length in HP. discriminate HP.
  - left. reflexivity.
Qed.

(** ** Running [search] *)


Section Search.
Context `{RegexpEngine}.
Variable cacheDir : Path.

Lemma searchFiles_invalid w root vcs pattern e :
  cache w = Present root vcs ->
  Compile pattern = Err e ->
  searchFiles cacheDir pattern w =
  (Done tt,
   {| cache := cache w;
      stdout := stdout w ++ [String.append "Invalid regex pattern: " e];
      calls := calls w ++ [CallStat] |}).
Proof.
  destruct w as [c out cs]. cbn [cache stdout calls]. intros -> Hc.
  unfold searchFiles, repositoryExists, os_Stat, bind, ret, log,
    get_cache, Println.
  cbn -[String.append]. rewrite Hc. reflexivity.
Qed.

Lemma searchFiles_valid w root vcs pattern regex :
  cache w = Present root vcs ->
  Compile pattern = Ok regex ->
  let r := Walk (searchFiles_fn regex cacheDir) cacheDir root
             (stdout w ++
              [String.append "Searching for .hl files matching pattern: "
                 pattern;
               "=================================================="],
              false) in
  searchFiles cacheDir pattern w =
  (Done tt,
   {| cache := cache w;
      stdout :=
        fst (fst r) ++
        match snd r with
        | Some e => [String.append "Error walking directory: " e]
        | None =>
            if snd (fst r) then []
            else ["No .hl files found matching the pattern."]
        end;
      calls := calls w ++ [CallStat; CallWalk] |}).
Proof.
  destruct w as [c out cs]. cbn [cache stdout calls]. intros -> Hc.
  unfold searchFiles, repositoryExists, os_Stat, filepath_Walk, bind, ret,
    log, get_cache, get_stdout, set_stdout, Println.
  cbn -[Walk searchFiles_fn String.append]. rewrite Hc.
  cbn -[Walk searchFiles_fn String.append].
  rewrite <- !app_assoc. cbn [app].
  destruct (Walk _ _ _ _) as [[out' found] [e|]];
    cbn -[String.append]; [reflexivity|].
  destruct found; cbn -[String.append]; rewrite ?app_nil_r; reflexivity.
Qed.
End Search.

(** ** C4: the queries on an absent cache *)

(** C4.  When the cache path does not exist, [list], [search] and [status]
    print the one line that asks to run [init] first and the process exits
    with status 0; the only library call made is the [os.Stat] that finds
    the path missing, so nothing is scanned, cloned or asked of the
    remote, and the cache stays absent. *)
Theorem query_on_absent_cache `{RegexpEngine} env home cmd w :
  cache w = Absent ->
  (forall force, cmd <> CmdInit force) ->
  main env (Ok home) cmd w =
  (0, {| cache := Absent;
         stdout := stdout w ++
                   ["Repository not found. Run 'schema-manager init' first."];
         calls := calls w ++ [CallStat] |}).
Proof.
  destruct w as [c out cs]. cbn [cache stdout calls]. intros -> Hcmd.
  destruct cmd as [force| |pattern|]; [now elim (Hcmd force)| | |];
    reflexivity.
Qed.

Lemma query_on_absent_cache_witness :
  main (H := LiteralRegexp.engine) quiet_env (Ok ["home"; "user"])
    (CmdSearch "^d") (fresh Absent) =
  (0, {| cache := Absent;
         stdout := ["Repository not found. Run 'schema-manager init' first."];
         calls := [CallStat] |}).
Proof.
  apply (@query_on_absent_cache LiteralRegexp.engine quiet_env
           ["home"; "user"] (CmdSearch "^d") (fresh Absent)).
  - reflexivity.
  - intros force Heq. discriminate Heq.
Defined.

(** ** C6: a pattern that does not compile *)

(** C6.  With the cache present, [search] with a pattern that does not
    compile prints the invalid-pattern message with the compiler's error,
    makes no call besides the [os.Stat] of the cache path (no walk), and
    the process exits with status 0. *)
Theorem search_invalid_pattern `{RegexpEngine} env home pattern e w root vcs :
  cache w = Present root vcs ->
  Compile pattern = Err e ->
  main env (Ok home) (CmdSearch pattern) w =
  (0, {| cache := cache w;
         stdout := stdout w ++ [String.append "Invalid regex pattern: " e];
         calls := calls w ++ [CallStat] |}).
Proof.
  intros Hc He. unfold main, run_command.
  rewrite (@searchFiles_invalid _ _ _ _ _ _ _ Hc He). reflexivity.
Qed.

Lemma search_invalid_pattern_witness :
  main (H := LiteralRegexp.engine) quiet_env (Ok ["home"; "user"])
    (CmdSearch "[invalid") (fresh (Present scenario_tree None)) =
  (0, {| cache := Present scenario_tree None;
         stdout := [String.append "Invalid regex pattern: "
                      "error parsing regexp: missing closing ]: `[invalid`"];
         calls := [CallStat] |}).
Proof.
  apply (@search_invalid_pattern LiteralRegexp.engine quiet_env
           ["home"; "user"] "[invalid"
           "error parsing regexp: missing closing ]: `[invalid`"
           (fresh (Present scenario_tree None)) scenario_tree None);
    reflexivity.
Defined.

(** ** C9: a walk error during [search] *)

(** C9.  With the cache present and a pattern that compiles, [search]
    prints the walk's error, and not the no-matches line, whenever the
    walk returns an error, whether or not a file matched before; the
    no-matches line is among the lines printed exactly when the walk
    returned no error and left [found] false. *)
Theorem search_walk_error `{RegexpEngine} cacheDir pattern regex w root vcs :
  cache w = Present root vcs ->
  Compile pattern = Ok regex ->
  let r := Walk (searchFiles_fn regex cacheDir) cacheDir root
             (stdout w ++
              [String.append "Searching for .hl files matching pattern: "
                 pattern;
               "=================================================="],
              false) in
  exists printed,
    stdout (snd (searchFiles cacheDir pattern w)) = stdout w ++ printed /\
    (forall e, snd r = Some e ->
       last printed "" = String.append "Error walking directory: " e /\
       ~ In "No .hl files found matching the pattern." printed) /\
    (In "No .hl files found matching the pattern." printed <->
     snd r = None /\ snd (fst r) = false).
Proof.
  intros Hc Hp r.
  rewrite (@searchFiles_valid _ cacheDir _ _ _ _ _ Hc Hp). fold r. cbn [snd stdout].
  unfold r. rewrite Walk_searchFiles. cbn [fst snd orb].
  set (vs := fst (reach cacheDir (Base cacheDir) root)).
  set (ls := map (line_of cacheDir) (filter (matched regex) vs)).
  assert (Hls : ~ In "No .hl files found matching the pattern." ls).
  { unfold ls, line_of. intro Hin. apply in_map_iff in Hin.
    destruct Hin as [v [Hv _]]. discriminate Hv. }
  assert (Hhead : forall tl,
             In "No .hl files found matching the pattern."
                ([String.append "Searching for .hl files matching pattern: "
                    pattern;
                  "=================================================="]
                   ++ ls ++ tl) ->
             In "No .hl files found matching the pattern." tl).
  { intros tl [Hin|[Hin|Hin]]; [discriminate Hin|discriminate Hin|].
    cbn [app] in Hin. apply in_app_or in Hin.
    destruct Hin as [Hin|Hin]; [contradiction|exact Hin]. }
  eexists. split; [rewrite <- !app_assoc; reflexivity|].
  destruct (snd (reach cacheDir (Base cacheDir) root)) as [e'|].
  - split.
    + intros e He. inversion He; subst. split.
      * rewrite !app_assoc. apply last_last.
      * intro Hin. apply Hhead in Hin. destruct Hin as [Hin|[]].
        discriminate Hin.
    + split; [|intros [Hn _]; discriminate Hn].
      intro Hin. apply Hhead in Hin. destruct Hin as [Hin|[]].
      discriminate Hin.
  - split; [intros e He; discriminate He|].
    destruct (existsb (matched regex) vs).
    + split; [|intros [_ Hf]; discriminate Hf].
      intro Hin. apply Hhead in Hin. destruct Hin.
    + split; [auto|]. intros _.
      apply in_or_app. right. apply in_or_app. right. left. reflexivity.
Qed.

Lemma search_walk_error_witness :
  exists printed,
    stdout (snd (searchFiles (H := LiteralRegexp.engine) home_cache "^d"
                   (fresh (Present locked_tree None)))) = [] ++ printed /\
    (forall e,
        snd (Walk (searchFiles_fn (H := LiteralRegexp.engine) (true, "d")
                     home_cache) home_cache locked_tree
               ([] ++
                [String.append "Searching for .hl files matching pattern: "
                   "^d";
                 "=================================================="],
                false)) = Some e ->
        last printed "" = String.append "Error walking directory: " e /\
        ~ In "No .hl files found matching the pattern." printed) /\
    (In "No .hl files found matching the pattern." printed <->
     snd (Walk (searchFiles_fn (H := LiteralRegexp.engine) (true, "d")
                  home_cache) home_cache locked_tree
            ([] ++
             [String.append "Searching for .hl files matching pattern: " "^d";
              "=================================================="],
             false)) = None /\
     snd (fst (Walk (searchFiles_fn (H := LiteralRegexp.engine) (true, "d")
                       home_cache) home_cache locked_tree
                 ([] ++
                  [String.append "Searching for .hl files matching pattern: "
                     "^d";
                   "=================================================="],
                  false))) = false).
Proof.
  apply (@search_walk_error LiteralRegexp.engine home_cache "^d" (true, "d")
           (fresh (Present locked_tree None)) locked_tree None);
    reflexivity.
Defined.

(** ** C5: [search] matches file names, not paths *)



(** ** Running [status] *)

Lemma Hash_eqb_eq (a b : Hash) : Hash_eqb a b = true <-> a = b.
Proof.
  revert b. induction a as [|x a IH]; intros [|y b]; simpl;
    try (split; [discriminate|discriminate]); [tauto|].
  rewrite andb_true_iff, IH. split.
  - intros [Hxy ->]. apply Byte.byte_dec_bl in Hxy. now subst.
  - intro Heq. inversion Heq; subst. split; [|reflexivity].
    now apply Byte.byte_dec_lb.
Qed.

Lemma checkRepository_reports env cacheDir w root repo refs head :
  cache w = Present root (Some repo) ->
  origin repo = None ->
  remote_advertises env = Ok refs ->
  HEAD repo = Ok head ->
  checkRepository env cacheDir w =
  (Done tt,
   {| cache := cache w;
      stdout := stdout w ++ status_report head refs;
      calls := calls w ++
               [CallStat; CallPlainOpen; CallRemote; CallRemoteList;
                CallHead] |}).
Proof.
  destruct w as [c out cs]. cbn [cache stdout calls].
  intros -> Horigin Hrefs Hhead.
  unfold checkRepository, repositoryExists, os_Stat, git_PlainOpen,
    repo_Remote, remote_List, repo_Head, bind, ret, log, get_cache, Println.
  cbn -[String.append remoteMain IsZero Hash_eqb Hash_String substring].
  rewrite Horigin.
  cbn -[String.append remoteMain IsZero Hash_eqb Hash_String substring].
  rewrite Hrefs.
  cbn -[String.append remoteMain IsZero Hash_eqb Hash_String substring].
  rewrite Hhead.
  cbn -[String.append remoteMain IsZero Hash_eqb Hash_String substring].
  unfold status_report, short8.
  destruct (IsZero (remoteMain refs));
    [|destruct (Hash_eqb head (remoteMain refs))];
    cbn -[String.append remoteMain IsZero Hash_eqb Hash_String substring];
    rewrite <- ?app_assoc; reflexivity.
Qed.

(** The loop returns the hash of the first reference that passes the
    test. *)
Lemma remoteMain_first before r after :
  (forall x, In x before -> is_main_branch x = false) ->
  is_main_branch r = true ->
  remoteMain (before ++ r :: after) = RefHash r.
Proof.
  intros Hbefore Hr. induction before as [|x before IH]; simpl.
  - unfold is_main_branch in Hr. now rewrite Hr.
  - pose proof (Hbefore x (or_introl eq_refl)) as Hx.
    unfold is_main_branch in Hx. rewrite Hx.
    apply IH. intros y Hy. apply Hbefore. right. exact Hy.
Qed.

Lemma remoteMain_none refs :
  (forall x, In x refs -> is_main_branch x = false) ->
  remoteMain refs = ZeroHash.
Proof.
  induction refs as [|x refs IH]; intro Hall; simpl; [reflexivity|].
  pose proof (Hall x (or_introl eq_refl)) as Hx.
  unfold is_main_branch in Hx. rewrite Hx.
  apply IH. intros y Hy. apply Hall. right. exact Hy.
Qed.

(** The first eight characters of the string of an identifier are the
    digits of its first four bytes. *)
Lemma short8_first_bytes (h : Hash) :
  4 <= List.length h ->
  substring 0 8 (Hash_String h) = Hash_String (firstn 4 h).
Proof.
  destruct h as [|b1 [|b2 [|b3 [|b4 rest]]]]; simpl; try lia.
  intros _. destruct (Hash_String rest); reflexivity.
Qed.

(** ** C2: up to date or behind *)



Example status_behind_scenario :
  main (H := LiteralRegexp.engine) (remote_at commit_b) (Ok ["home"; "user"])
    CmdStatus (fresh (Present scenario_tree (Some repo_at_a))) =
  (0, {| cache := Present scenario_tree (Some repo_at_a);
         stdout := ["✗ Local repository is behind remote.";
                    "  Local HEAD:  a1b2c3d4";
                    "  Remote main: 0f1e2d3c";
                    "  Run 'schema-manager init -f' to update."];
         calls := [CallStat; CallPlainOpen; CallRemote; CallRemoteList;
                   CallHead] |}).
Proof. reflexivity. Qed.

Example status_up_to_date_scenario :
  stdout (snd (checkRepository (remote_at commit_a) home_cache
                 (fresh (Present scenario_tree (Some repo_at_a))))) =
  ["✓ Local repository is up to date with remote."].
Proof. reflexivity. Qed.

(** ** C10: which reference is the remote [main] *)

(** C10.  With the cache a repository whose remote answers with [refs] and
    whose HEAD resolves, the identifier [status] takes for the remote
    [main] is the hash of the first reference of [refs], in the order
    listed, that is a branch with short name ["main"]; when no reference
    is such a branch, or the first one carries the all-zero identifier,
    [status] prints only that the remote main branch could not be found:
    no comparison is reported. *)
Theorem status_remote_main env cacheDir w root repo refs head :
  cache w = Present root (Some repo) ->
  origin repo = None ->
  remote_advertises env = Ok refs ->
  HEAD repo = Ok head ->
  (forall before r after,
      refs = before ++ r :: after ->
      (forall x, In x before -> is_main_branch x = false) ->
      is_main_branch r = true ->
      remoteMain refs = RefHash r /\
      (IsZero (RefHash r) = false ->
       stdout (snd (checkRepository env cacheDir w)) =
       stdout w ++
       (if Hash_eqb head (RefHash r)
        then ["✓ Local repository is up to date with remote."]
        else ["✗ Local repository is behind remote.";
              String.append "  Local HEAD:  "
                (substring 0 8 (Hash_String head));
              String.append "  Remote main: "
                (substring 0 8 (Hash_String (RefHash r)));
              "  Run 'schema-manager init -f' to update."])) /\
      (IsZero (RefHash r) = true ->
       stdout (snd (checkRepository env cacheDir w)) =
       stdout w ++ ["Could not find remote main branch."])) /\
  ((forall x, In x refs -> is_main_branch x = false) ->
   stdout (snd (checkRepository env cacheDir w)) =
   stdout w ++ ["Could not find remote main branch."]).
Proof.
  intros Hc Ho Hr Hh.
  rewrite (@checkRepository_reports env cacheDir _ _ _ _ _ Hc Ho Hr Hh).
  cbn [snd stdout]. unfold status_report. split.
  - intros before r after -> Hbefore Hmain.
    rewrite (remoteMain_first before r after Hbefore Hmain).
    split; [reflexivity|]. split; intros ->; reflexivity.
  - intro Hnone. rewrite (remoteMain_none refs Hnone). reflexivity.
Qed.

Lemma status_remote_main_witness :
  remoteMain
    [{| RefName := "HEAD"; RefHash := ZeroHash |};
     {| RefName := "refs/tags/main"; RefHash := commit_a |};
     {| RefName := "refs/heads/main"; RefHash := ZeroHash |};
     {| RefName := "refs/heads/dev"; RefHash := commit_a |}] = ZeroHash /\
  stdout (snd (checkRepository (remote_at ZeroHash) home_cache
                 (fresh (Present scenario_tree (Some repo_at_a))))) =
  ["Could not find remote main branch."].
Proof.
  destruct (@status_remote_main (remote_at ZeroHash) home_cache
              (fresh (Present scenario_tree (Some repo_at_a)))
              scenario_tree repo_at_a
              [{| RefName := "HEAD"; RefHash := ZeroHash |};
               {| RefName := "refs/tags/main"; RefHash := commit_a |};
               {| RefName := "refs/heads/main"; RefHash := ZeroHash |};
               {| RefName := "refs/heads/dev"; RefHash := commit_a |}]
              commit_a eq_refl eq_refl eq_refl eq_refl) as [Hfirst _].
  destruct (Hfirst
              [{| RefName := "HEAD"; RefHash := ZeroHash |};
               {| RefName := "refs/tags/main"; RefHash := commit_a |}]
              {| RefName := "refs/heads/main"; RefHash := ZeroHash |}
              [{| RefName := "refs/heads/dev"; RefHash := commit_a |}]
              eq_refl) as [Hmain [_ Hzero]].
  - intros x [<-|[<-|[]]]; reflexivity.
  - reflexivity.
  - split; [exact Hmain | apply Hzero; reflexivity].
Defined.

(** ** C3: [init] with and without the force flag *)

(** C3 (as amended).  Without the force flag and with the cache path
    present, [init] reports that the repository already exists and does
    nothing else: the only call is the [os.Stat], the cache is untouched
    and the exit status is 0.  With the force flag the first call is
    always the recursive removal of the cache path.  When the removal
    fails, [init] prints the error and exits with status 1 without
    creating or cloning anything.  When the removal succeeds the directory
    is created and, once created, the clone is started; when the clone
    succeeds as well the cache holds the new clone and the exit status is
    0. *)
Theorem init_existing_and_force `{RegexpEngine} env home w :
  (forall root vcs,
      cache w = Present root vcs ->
      main env (Ok home) (CmdInit false) w =
      (0, {| cache := cache w;
             stdout := stdout w ++
               [String.append "Repository already exists at: "
                  (show_abs (Join (Join home ".opencmd") "commands"));
                "Use -f flag to force re-clone."];
             calls := calls w ++ [CallStat] |})) /\
  (exists rest,
      calls (snd (main env (Ok home) (CmdInit true) w)) =
      calls w ++ CallRemoveAll :: rest) /\
  (forall e remains,
      removeAll_fails env = Some (e, remains) ->
      main env (Ok home) (CmdInit true) w =
      (1, {| cache := remains;
             stdout := stdout w ++
               [String.append "Error removing existing directory: " e];
             calls := calls w ++ [CallRemoveAll] |})) /\
  (removeAll_fails env = None ->
   mkdirAll_fails env = None ->
   calls (snd (main env (Ok home) (CmdInit true) w)) =
   calls w ++ [CallRemoveAll; CallStat; CallMkdirAll; CallPlainClone]) /\
  (forall tree repo,
      removeAll_fails env = None ->
      mkdirAll_fails env = None ->
      clone_yields env = inr (tree, repo) ->
      main env (Ok home) (CmdInit true) w =
      (0, {| cache := Present tree (Some repo);
             stdout := stdout w ++
               ["Removed existing cache directory.";
                String.append "Cloning repository to: "
                  (show_abs (Join (Join home ".opencmd") "commands"));
                "Repository cloned successfully!"];
             calls := calls w ++
               [CallRemoveAll; CallStat; CallMkdirAll; CallPlainClone] |})).
Proof.
  destruct w as [c out cs]. destruct env as [rm mk cl ra].
  cbn [cache stdout calls removeAll_fails mkdirAll_fails clone_yields].
  unfold main, run_command, initRepository, os_RemoveAll, os_Stat,
    os_MkdirAll, git_PlainClone, os_Exit, bind, ret, log, get_cache,
    set_cache, Println.
  cbn [cache stdout calls removeAll_fails mkdirAll_fails clone_yields].
  split; [|split; [|split; [|split]]].
  - intros root vcs ->. rewrite <- !app_assoc. reflexivity.
  - destruct rm as [[e remains]|];
      cbn [cache stdout calls fst snd].
    + eexists. reflexivity.
    + destruct mk as [e|]; cbn [cache stdout calls fst snd].
      * eexists. rewrite <- !app_assoc. reflexivity.
      * destruct cl as [[e remains]|[tree repo]];
          cbn [cache stdout calls fst snd];
          eexists; rewrite <- !app_assoc; reflexivity.
  - intros e remains ->. reflexivity.
  - intros -> ->. cbn [cache stdout calls fst snd].
    destruct cl as [[e remains]|[tree repo]];
      cbn [cache stdout calls fst snd]; rewrite <- !app_assoc; reflexivity.
  - intros tree repo -> -> ->. cbn [cache stdout calls fst snd].
    rewrite <- !app_assoc. reflexivity.
Qed.

Lemma init_existing_and_force_witness :
  main (H := LiteralRegexp.engine) (remote_at commit_b) (Ok ["home"; "user"])
    (CmdInit false) (fresh (Present scenario_tree (Some repo_at_a))) =
  (0, {| cache := Present scenario_tree (Some repo_at_a);
         stdout :=
           [] ++
           [String.append "Repository already exists at: "
              (show_abs (Join (Join ["home"; "user"] ".opencmd") "commands"));
            "Use -f flag to force re-clone."];
         calls := [] ++ [CallStat] |}) /\
  main (H := LiteralRegexp.engine) (remote_at commit_b) (Ok ["home"; "user"])
    (CmdInit true) (fresh (Present scenario_tree (Some repo_at_a))) =
  (0, {| cache :=
           Present scenario_tree (Some {| origin := None; HEAD := Ok commit_b |});
         stdout :=
           [] ++
           ["Removed existing cache directory.";
            String.append "Cloning repository to: "
              (show_abs (Join (Join ["home"; "user"] ".opencmd") "commands"));
            "Repository cloned successfully!"];
         calls := [] ++
           [CallRemoveAll; CallStat; CallMkdirAll; CallPlainClone] |}).
Proof.
  destruct (@init_existing_and_force LiteralRegexp.engine (remote_at commit_b)
              ["home"; "user"]
              (fresh (Present scenario_tree (Some repo_at_a))))
    as [Hexists [_ [_ [_ Hforce]]]].
  split.
  - apply (Hexists scenario_tree (Some repo_at_a)). reflexivity.
  - apply (Hforce scenario_tree {| origin := None; HEAD := Ok commit_b |});
      reflexivity.
Defined.

(** C3 as stated fails: [init] with the force flag does not always
    re-create and re-populate the cache.  When the removal fails the run
    ends with status 1 after that one call; nothing is created or cloned
    and what the removal left stays at the cache path. *)
Lemma init_force_counterexample :
  main (H := LiteralRegexp.engine) removal_fails (Ok ["home"; "user"])
    (CmdInit true) (fresh (Present scenario_tree (Some repo_at_a))) =
  (1, {| cache := Present scenario_tree None;
         stdout :=
           ["Error removing existing directory: unlinkat /home/user/.opencmd/commands/a: permission denied"];
         calls := [CallRemoveAll] |}) /\
  ~ In CallPlainClone
      (calls (snd (main (H := LiteralRegexp.engine) removal_fails
                     (Ok ["home"; "user"]) (CmdInit true)
                     (fresh (Present scenario_tree (Some repo_at_a)))))).
Proof.
  split; [reflexivity|].
  cbv. intros [Heq|[]]. discriminate Heq.
Qed.

(** ** C7: the state of the cache after a run *)

Lemma listFiles_keeps_cache cacheDir w :
  cache (snd (listFiles cacheDir w)) = cache w.
Proof.
  destruct (cache w) as [|root vcs] eqn:Hc.
  - destruct w as [c out cs]. cbn [cache] in Hc. subst c. reflexivity.
  - rewrite (@listFiles_present cacheDir w root vcs Hc). exact Hc.
Qed.

Lemma searchFiles_keeps_cache `{RegexpEngine} cacheDir pattern w :
  cache (snd (searchFiles cacheDir pattern w)) = cache w.
Proof.
  destruct (cache w) as [|root vcs] eqn:Hc.
  - destruct w as [c out cs]. cbn [cache] in Hc. subst c. reflexivity.
  - destruct (Compile pattern) as [regex|e] eqn:Hp.
    + rewrite (@searchFiles_valid _ cacheDir w root vcs pattern regex Hc Hp).
      exact Hc.
    + rewrite (@searchFiles_invalid _ cacheDir w root vcs pattern e Hc Hp).
      exact Hc.
Qed.

Lemma checkRepository_keeps_cache env cacheDir w :
  cache (snd (checkRepository env cacheDir w)) = cache w.
Proof.
  destruct w as [c out cs]. destruct env as [rm mk cl ra].
  unfold checkRepository, repositoryExists, os_Stat, git_PlainOpen,
    repo_Remote, remote_List, repo_Head, bind, ret, log, get_cache, Println.
  destruct c as [|root [[o h]|]];
    cbn -[String.append remoteMain IsZero Hash_eqb Hash_String substring];
    try reflexivity.
  destruct o as [e|];
    cbn -[String.append remoteMain IsZero Hash_eqb Hash_String substring];
    [reflexivity|].
  destruct ra as [refs|e];
    cbn -[String.append remoteMain IsZero Hash_eqb Hash_String substring];
    [|reflexivity].
  destruct h as [head|e];
    cbn -[String.append remoteMain IsZero Hash_eqb Hash_String substring];
    [|reflexivity].
  destruct (IsZero (remoteMain refs));
    cbn -[String.append remoteMain IsZero Hash_eqb Hash_String substring];
    [reflexivity|].
  destruct (Hash_eqb head (remoteMain refs)); reflexivity.
Qed.

Lemma main_world `{RegexpEngine} env home cmd w :
  snd (main env (Ok home) cmd w) =
  snd (run_command env (Join (Join home ".opencmd") "commands") cmd w).
Proof.
  unfold main. destruct (run_command _ _ _ _) as [[[]|code] w']; reflexivity.
Qed.

(** C7 (as amended).  A run of [list], [search] or [status] leaves the
    cache path as it found it.  Starting from a cache path that is absent
    or holds a completed clone, a run of any command that ends with exit
    status 0 leaves the cache path absent or holding a completed clone. *)
Theorem cache_after_run `{RegexpEngine} env home cmd w :
  ((forall force, cmd <> CmdInit force) ->
   cache (snd (main env (Ok home) cmd w)) = cache w) /\
  (absent_or_cloned (cache w) = true ->
   fst (main env (Ok home) cmd w) = 0 ->
   absent_or_cloned (cache (snd (main env (Ok home) cmd w))) = true).
Proof.
  assert (Hquery : (forall force, cmd <> CmdInit force) ->
                   cache (snd (main env (Ok home) cmd w)) = cache w).
  { intro Hcmd. rewrite main_world. unfold run_command.
    destruct cmd as [force| |pattern|]; [now elim (Hcmd force)| | |].
    - apply listFiles_keeps_cache.
    - apply searchFiles_keeps_cache.
    - apply checkRepository_keeps_cache. }
  split; [exact Hquery|].
  intros Hinv Hexit.
  destruct cmd as [force| |pattern|];
    try (rewrite Hquery; [exact Hinv | intros f Heq; discriminate Heq]).
  revert Hinv Hexit.
  destruct w as [c out cs]. destruct env as [rm mk cl ra].
  unfold main, run_command, initRepository, os_RemoveAll, os_Stat,
    os_MkdirAll, git_PlainClone, os_Exit, bind, ret, log, get_cache,
    set_cache, Println.
  cbn [cache stdout calls removeAll_fails mkdirAll_fails clone_yields].
  destruct force.
  - destruct rm as [[e remains]|]; cbn [cache stdout calls fst snd];
      [discriminate|].
    destruct mk as [e|]; cbn [cache stdout calls fst snd]; [discriminate|].
    destruct cl as [[e remains]|[tree repo]]; cbn [cache stdout calls fst snd];
      [discriminate|reflexivity].
  - destruct c as [|root [repo|]]; cbn [cache stdout calls fst snd];
      [|auto|discriminate].
    destruct mk as [e|]; cbn [cache stdout calls fst snd]; [discriminate|].
    destruct cl as [[e remains]|[tree repo]]; cbn [cache stdout calls fst snd];
      [discriminate|reflexivity].
Qed.

Lemma cache_after_run_witness :
  cache (snd (main (H := LiteralRegexp.engine) (remote_at commit_b)
                (Ok ["home"; "user"]) CmdStatus
                (fresh (Present scenario_tree (Some repo_at_a))))) =
  Present scenario_tree (Some repo_at_a) /\
  absent_or_cloned
    (cache (snd (main (H := LiteralRegexp.engine) (remote_at commit_b)
                   (Ok ["home"; "user"]) (CmdInit false) (fresh Absent)))) =
  true.
Proof.
  split.
  - apply (@cache_after_run LiteralRegexp.engine (remote_at commit_b)
             ["home"; "user"] CmdStatus
             (fresh (Present scenario_tree (Some repo_at_a)))).
    intros force Heq. discriminate Heq.
  - apply (@cache_after_run LiteralRegexp.engine (remote_at commit_b)
             ["home"; "user"] (CmdInit false) (fresh Absent));
      reflexivity.
Defined.

(** C7 as stated fails: a run of [init] whose clone fails ends (with exit
    status 1) after the directory was created, and leaves at the cache
    path a directory that is not a repository. *)
Lemma partial_cache_counterexample :
  main (H := LiteralRegexp.engine) clone_fails (Ok ["home"; "user"])
    (CmdInit false) (fresh Absent) =
  (1, {| cache := Present (Dir None []) None;
         stdout := ["Cloning repository to: /home/user/.opencmd/commands";
                    "Error cloning repository: repository not found"];
         calls := [CallStat; CallMkdirAll; CallPlainClone] |}) /\
  absent_or_cloned (Present (Dir None []) None) = false.
Proof. split; reflexivity. Qed.

(** No later command repairs that state: [init] without the force flag
    takes the directory for the repository, and [status] cannot open it. *)
Example init_after_failed_clone :
  main (H := LiteralRegexp.engine) quiet_env (Ok ["home"; "user"])
    (CmdInit false) (fresh (Present (Dir None []) None)) =
  (0, {| cache := Present (Dir None []) None;
         stdout := ["Repository already exists at: /home/user/.opencmd/commands";
                    "Use -f flag to force re-clone."];
         calls := [CallStat] |}).
Proof. reflexivity. Qed.

Example status_after_failed_clone :
  main (H := LiteralRegexp.engine) quiet_env (Ok ["home"; "user"])
    CmdStatus (fresh (Present (Dir None []) None)) =
  (0, {| cache := Present (Dir None []) None;
         stdout := ["Error opening repository: repository does not exist"];
         calls := [CallStat; CallPlainOpen] |}).
Proof. reflexivity. Qed.

(** * Further properties of the program *)

(** ** Strings *)

Lemma substring_whole (s : string) : substring 0 (String.length s) s = s.
Proof. induction s as [|c s IH]; simpl; [reflexivity | now rewrite IH]. Qed.

Lemma substring_append_skip (p s : string) (m : nat) :
  substring (String.length p) m (String.append p s) = substring 0 m s.
Proof. induction p as [|c p IH]; simpl; [reflexivity | exact IH]. Qed.

Lemma length_String_append (p s : string) :
  String.length (String.append p s) = String.length p + String.length s.
Proof. induction p as [|c p IH]; simpl; [reflexivity | now rewrite IH]. Qed.

Lemma split_at (s : string) : forall n,
    n <= String.length s ->
    s = String.append (substring 0 n s)
          (substring n (String.length s - n) s).
Proof.
  induction s as [|c s IH]; intros [|n] Hn; simpl in *.
  - reflexivity.
  - lia.
  - now rewrite substring_whole.
  - rewrite <- IH by lia. reflexivity.
Qed.

(** [strings.HasSuffix] holds exactly of the strings that end with the
    suffix. *)
Lemma HasSuffix_iff (s suffix : string) :
  HasSuffix s suffix = true <-> exists stem, s = String.append stem suffix.
Proof.
  unfold HasSuffix. rewrite andb_true_iff, Nat.leb_le, String.eqb_eq. split.
  - intros [Hlen Hsub].
    exists (substring 0 (String.length s - String.length suffix) s).
    rewrite (@split_at s (String.length s - String.length suffix)) at 1 by lia.
    f_equal. rewrite <- Hsub at 3. f_equal. lia.
  - intros [stem ->]. rewrite length_String_append. split; [lia|].
    replace (String.length stem + String.length suffix - String.length suffix)
      with (String.length stem) by lia.
    rewrite substring_append_skip. apply substring_whole.
Qed.

(** ** The test of the two walks *)

Lemma qualifies_iff (path : Path) (info : FileInfo) :
  qualifies (path, info) = true <->
  Mode info <> ModeDir /\ exists stem, Name info = String.append stem ".hl".
Proof.
  unfold qualifies. cbn [snd]. rewrite andb_true_iff, HasSuffix_iff.
  unfold IsDir. destruct (Mode info); simpl; split.
  - intros [Hd _]. discriminate Hd.
  - intros [Hd _]. now elim Hd.
  - intros [_ Hs]. split; [discriminate | exact Hs].
  - intros [_ Hs]. split; [reflexivity | exact Hs].
Qed.

(** The callback of [list] prints a line for an entry exactly when the
    entry is not a directory and its name is some stem, possibly empty,
    followed by [".hl"]; the test is on the name as it is, so [".HL"] or
    [".hl.bak"] do not pass. *)
Theorem listFiles_fn_prints_iff cacheDir path info out :
  (exists line,
      listFiles_fn cacheDir path (Some info) None out =
      (out ++ [line], None)) <->
  Mode info <> ModeDir /\ exists stem, Name info = String.append stem ".hl".
Proof.
  rewrite <- (qualifies_iff path info). unfold listFiles_fn, qualifies.
  cbn [snd].
  destruct (negb (IsDir info) && HasSuffix (Name info) ".hl"); split.
  - reflexivity.
  - intros _. eexists. reflexivity.
  - intros [line Heq]. apply (f_equal fst) in Heq. cbn [fst] in Heq.
    apply (f_equal (@List.length string)) in Heq.
    rewrite length_app in Heq. simpl in Heq. lia.
  - discriminate.
Qed.

(** ** The test of the loop of [checkRepository] *)





(** ** The runs of the three queries, path by path *)

Ltac run_status :=
  unfold checkRepository, repositoryExists, os_Stat, git_PlainOpen,
    repo_Remote, remote_List, repo_Head, bind, ret, log, get_cache, Println;
  cbn -[String.append remoteMain IsZero Hash_eqb Hash_String substring].

Lemma listFiles_absent cacheDir w :
  cache w = Absent ->
  listFiles cacheDir w =
  (Done tt,
   {| cache := cache w;
      stdout := stdout w ++
                ["Repository not found. Run 'schema-manager init' first."];
      calls := calls w ++ [CallStat] |}).
Proof. destruct w as [c out cs]. cbn [cache]. intros ->. reflexivity. Qed.

Lemma searchFiles_absent `{RegexpEngine} cacheDir pattern w :
  cache w = Absent ->
  searchFiles cacheDir pattern w =
  (Done tt,
   {| cache := cache w;
      stdout := stdout w ++
                ["Repository not found. Run 'schema-manager init' first."];
      calls := calls w ++ [CallStat] |}).
Proof. destruct w as [c out cs]. cbn [cache]. intros ->. reflexivity. Qed.


Lemma checkRepository_not_repository env cacheDir w root :
  cache w = Present root None ->
  checkRepository env cacheDir w =
  (Done tt,
   {| cache := cache w;
      stdout := stdout w ++
                ["Error opening repository: repository does not exist"];
      calls := calls w ++ [CallStat; CallPlainOpen] |}).
Proof.
  destruct w as [c out cs]. cbn [cache]. intros ->. run_status.
  rewrite <- !app_assoc. reflexivity.
Qed.





(** ** The calls [status] makes *)



(** ** The failures of [status] *)



(** ** The exit status and the calls of the queries *)




(** [list] and [search] call nothing but [os.Stat] and [filepath.Walk]:
    one [os.Stat], then one walk when the cache path exists (and, for
    [search], the pattern compiles).  Neither asks the remote nor changes
    the disk. *)
Theorem scan_calls `{RegexpEngine} env home w :
  calls (snd (main env (Ok home) CmdList w)) =
    calls w ++ match cache w with
               | Absent => [CallStat]
               | Present _ _ => [CallStat; CallWalk]
               end /\
  forall pattern,
    calls (snd (main env (Ok home) (CmdSearch pattern) w)) =
    calls w ++ match cache w, Compile pattern with
               | Present _ _, Ok _ => [CallStat; CallWalk]
               | _, _ => [CallStat]
               end.
Proof.
  split; [|intro pattern]; rewrite main_world; unfold run_command.
  - destruct (cache w) as [|root vcs] eqn:Hc.
    + now rewrite (listFiles_absent _ w Hc).
    + now rewrite (@listFiles_present _ w root vcs Hc).
  - destruct (cache w) as [|root vcs] eqn:Hc.
    + now rewrite (searchFiles_absent _ pattern w Hc).
    + destruct (Compile pattern) as [regex|e] eqn:Hp.
      * now rewrite (@searchFiles_valid _ _ w root vcs pattern regex Hc Hp).
      * now rewrite (@searchFiles_invalid _ _ w root vcs pattern e Hc Hp).
Qed.

(** ** [init] on an absent cache *)

Ltac run_init :=
  unfold main, run_command, initRepository, os_RemoveAll, os_Stat,
    os_MkdirAll, git_PlainClone, os_Exit, bind, ret, log, get_cache,
    set_cache, Println;
  cbn [cache stdout calls removeAll_fails mkdirAll_fails clone_yields
       fst snd].

(** Without the force flag and with no cache path, [init] creates the
    directory and clones into it.  When the directory cannot be created it
    prints the error and exits with status 1, the cache path still absent
    and no clone started; when the clone fails it prints the error and
    exits with status 1, leaving the directory; when both succeed the cache
    holds the clone and the exit status is 0.  Nothing is removed on any of
    the three paths. *)
Theorem init_on_absent_cache `{RegexpEngine} env home w :
  cache w = Absent ->
  (forall e,
      mkdirAll_fails env = Some e ->
      main env (Ok home) (CmdInit false) w =
      (1, {| cache := Absent;
             stdout := stdout w ++
                       [String.append "Error creating directory: " e];
             calls := calls w ++ [CallStat; CallMkdirAll] |})) /\
  (forall e remains,
      mkdirAll_fails env = None ->
      clone_yields env = inl (e, remains) ->
      main env (Ok home) (CmdInit false) w =
      (1, {| cache := Present remains None;
             stdout := stdout w ++
               [String.append "Cloning repository to: "
                  (show_abs (Join (Join home ".opencmd") "commands"));
                String.append "Error cloning repository: " e];
             calls := calls w ++
                      [CallStat; CallMkdirAll; CallPlainClone] |})) /\
  (forall tree repo,
      mkdirAll_fails env = None ->
      clone_yields env = inr (tree, repo) ->
      main env (Ok home) (CmdInit false) w =
      (0, {| cache := Present tree (Some repo);
             stdout := stdout w ++
               [String.append "Cloning repository to: "
                  (show_abs (Join (Join home ".opencmd") "commands"));
                "Repository cloned successfully!"];
             calls := calls w ++
                      [CallStat; CallMkdirAll; CallPlainClone] |})).
Proof.
  destruct w as [c out cs]. destruct env as [rm mk cl ra].
  cbn [cache stdout calls mkdirAll_fails clone_yields]. intros ->.
  run_init. repeat split.
  - intros e ->. cbn [cache stdout calls fst snd].
    rewrite <- !app_assoc. reflexivity.
  - intros e remains -> ->. cbn [cache stdout calls fst snd].
    rewrite <- !app_assoc. reflexivity.
  - intros tree repo -> ->. cbn [cache stdout calls fst snd].
    rewrite <- !app_assoc. reflexivity.
Qed.

Lemma init_on_absent_cache_witness :
  main (H := LiteralRegexp.engine) clone_fails (Ok ["home"; "user"])
    (CmdInit false) (fresh Absent) =
  (1, {| cache := Present (Dir None []) None;
         stdout := [] ++
           [String.append "Cloning repository to: "
              (show_abs (Join (Join ["home"; "user"] ".opencmd") "commands"));
            String.append "Error cloning repository: " "repository not found"];
         calls := [] ++ [CallStat; CallMkdirAll; CallPlainClone] |}) /\
  main (H := LiteralRegexp.engine) (remote_at commit_b) (Ok ["home"; "user"])
    (CmdInit false) (fresh Absent) =
  (0, {| cache :=
           Present scenario_tree
             (Some {| origin := None; HEAD := Ok commit_b |});
         stdout := [] ++
           [String.append "Cloning repository to: "
              (show_abs (Join (Join ["home"; "user"] ".opencmd") "commands"));
            "Repository cloned successfully!"];
         calls := [] ++ [CallStat; CallMkdirAll; CallPlainClone] |}).
Proof.
  split.
  - destruct (@init_on_absent_cache LiteralRegexp.engine clone_fails
                ["home"; "user"] (fresh Absent) eq_refl) as [_ [Hclone _]].
    apply (Hclone "repository not found" (Dir None [])); reflexivity.
  - destruct (@init_on_absent_cache LiteralRegexp.engine (remote_at commit_b)
                ["home"; "user"] (fresh Absent) eq_refl) as [_ [_ Hok]].
    apply (Hok scenario_tree {| origin := None; HEAD := Ok commit_b |});
      reflexivity.
Defined.

(** ** The exit status of [init] *)

(** [init] ends with exit status 0 or 1, and with 0 exactly in two cases:
    the force flag is not set and the cache path exists (nothing is done),
    or every step that is run succeeds: the removal under the force flag,
    the creation of the directory and the clone. *)
Theorem init_exit_status `{RegexpEngine} env home force w :
  (fst (main env (Ok home) (CmdInit force) w) = 0 \/
   fst (main env (Ok home) (CmdInit force) w) = 1) /\
  (fst (main env (Ok home) (CmdInit force) w) = 0 <->
   (force = false /\ cache w <> Absent) \/
   ((force = true -> removeAll_fails env = None) /\
    (force = false -> cache w = Absent) /\
    mkdirAll_fails env = None /\
    exists tree repo, clone_yields env = inr (tree, repo))).
Proof.
  destruct w as [c out cs]. destruct env as [rm mk cl ra].
  cbn [cache stdout calls removeAll_fails mkdirAll_fails clone_yields].
  run_init.
  destruct force.
  - destruct rm as [[e remains]|]; cbn [cache stdout calls fst snd].
    + split; [auto|]. split; [discriminate|].
      intros [[Hf _]|[Hrm _]]; [discriminate Hf|].
      discriminate (Hrm eq_refl).
    + destruct mk as [e|]; cbn [cache stdout calls fst snd].
      * split; [auto|]. split; [discriminate|].
        intros [[Hf _]|[_ [_ [Hmk _]]]]; [discriminate Hf|discriminate Hmk].
      * destruct cl as [[e remains]|[tree repo]];
          cbn [cache stdout calls fst snd].
        -- split; [auto|]. split; [discriminate|].
           intros [[Hf _]|[_ [_ [_ [t [r Hcl]]]]]];
             [discriminate Hf|discriminate Hcl].
        -- split; [auto|]. split; [|reflexivity]. intros _. right.
           repeat split; try discriminate. eauto.
  - destruct c as [|root vcs]; cbn [cache stdout calls fst snd].
    + destruct mk as [e|]; cbn [cache stdout calls fst snd].
      * split; [auto|]. split; [discriminate|].
        intros [[_ Hc]|[_ [_ [Hmk _]]]]; [now elim Hc|discriminate Hmk].
      * destruct cl as [[e remains]|[tree repo]];
          cbn [cache stdout calls fst snd].
        -- split; [auto|]. split; [discriminate|].
           intros [[_ Hc]|[_ [_ [_ [t [r Hcl]]]]]];
             [now elim Hc|discriminate Hcl].
        -- split; [auto|]. split; [|reflexivity]. intros _. right.
           repeat split; try discriminate. eauto.
    + split; [auto|]. split; [|reflexivity]. intros _. left.
      split; [reflexivity|discriminate].
Qed.

(** ** [search] against [list] *)



(** ** The whole output of [search] *)

Lemma existsb_filter_nil (A : Type) (f : A -> bool) (l : list A) :
  existsb f l = match filter f l with [] => false | _ => true end.
Proof.
  induction l as [|x l IH]; [reflexivity|].
  simpl. destruct (f x); [reflexivity | exact IH].
Qed.

(** With the cache present and a pattern that compiles, [search] prints
    its two header lines, the lines of the matching files, and then one
    last line only in two cases: the walk's error when the walk failed,
    the no-matches line when the walk succeeded and no file line was
    printed.  The no-matches line never comes with a file line. *)
Theorem search_output `{RegexpEngine} cacheDir pattern regex w root vcs :
  cache w = Present root vcs ->
  Compile pattern = Ok regex ->
  stdout (snd (searchFiles cacheDir pattern w)) =
  stdout w ++
  [String.append "Searching for .hl files matching pattern: " pattern;
   "=================================================="] ++
  fst (fst (Walk (searchFiles_fn regex cacheDir) cacheDir root ([], false))) ++
  match snd (Walk (searchFiles_fn regex cacheDir) cacheDir root ([], false))
  with
  | Some e => [String.append "Error walking directory: " e]
  | None =>
      match fst (fst (Walk (searchFiles_fn regex cacheDir) cacheDir root
                        ([], false)))
      with
      | [] => ["No .hl files found matching the pattern."]
      | _ :: _ => []
      end
  end.
Proof.
  intros Hc Hp.
  rewrite (@searchFiles_valid _ cacheDir w root vcs pattern regex Hc Hp).
  cbn [snd stdout]. rewrite !Walk_searchFiles. cbn [fst snd app orb].
  rewrite existsb_filter_nil.
  set (vs := fst (reach cacheDir (Base cacheDir) root)).
  rewrite <- !app_assoc. cbn [app]. do 3 f_equal.
  destruct (snd (reach cacheDir (Base cacheDir) root)); [reflexivity|].
  destruct (filter (matched regex) vs); reflexivity.
Qed.

Lemma search_output_witness :
  stdout (snd (searchFiles (H := LiteralRegexp.engine) home_cache "^x"
                 (fresh (Present scenario_tree None)))) =
  [] ++
  [String.append "Searching for .hl files matching pattern: " "^x";
   "=================================================="] ++
  fst (fst (Walk (searchFiles_fn (H := LiteralRegexp.engine) (true, "x")
                    home_cache) home_cache scenario_tree ([], false))) ++
  match snd (Walk (searchFiles_fn (H := LiteralRegexp.engine) (true, "x")
                     home_cache) home_cache scenario_tree ([], false))
  with
  | Some e => [String.append "Error walking directory: " e]
  | None =>
      match fst (fst (Walk (searchFiles_fn (H := LiteralRegexp.engine)
                              (true, "x") home_cache) home_cache
                        scenario_tree ([], false)))
      with
      | [] => ["No .hl files found matching the pattern."]
      | _ :: _ => []
      end
  end.
Proof.
  apply (@search_output LiteralRegexp.engine home_cache "^x" (true, "x")
           (fresh (Present scenario_tree None)) scenario_tree None);
    reflexivity.
Defined.

(** ** The whole output of [list] *)



Example list_locked_scenario :
  stdout (snd (listFiles home_cache (fresh (Present locked_tree None)))) =
  ["Listing .hl files in cache directory:";
   "=====================================";
   "  a/b.hl";
   "Error walking directory: open c: permission denied"].
Proof. reflexivity. Qed.

(** ** The walk stops at the first error *)

Lemma seq_reach_after_error rs r rest rest' :
  snd r <> None ->
  seq_reach (rs ++ r :: rest) = seq_reach (rs ++ r :: rest').
Proof.
  intro Hr. induction rs as [|[vs [e|]] rs IH]; simpl.
  - destruct r as [vs [e|]]; [reflexivity|now elim Hr].
  - reflexivity.
  - rewrite IH. reflexivity.
Qed.

(** Once an entry of the root fails, because it or something below it
    cannot be read, what the directory lists after that entry has no
    effect: the walk of [list] returns the same lines and the same error
    whatever follows, so files that come later are not listed. *)
Theorem list_stops_at_first_error cacheDir before name bad after after' :
  error_free bad = false ->
  Walk (listFiles_fn cacheDir) cacheDir
    (Dir None (before ++ (name, bad) :: after)) [] =
  Walk (listFiles_fn cacheDir) cacheDir
    (Dir None (before ++ (name, bad) :: after')) [] /\
  snd (Walk (listFiles_fn cacheDir) cacheDir
         (Dir None (before ++ (name, bad) :: after)) []) <> None.
Proof.
  intro Hbad.
  assert (Hr : snd (reach_child cacheDir (name, bad)) <> None).
  { unfold reach_child. cbn [fst snd]. intro Hok.
    apply reach_ok_iff_error_free in Hok. congruence. }
  rewrite !Walk_listFiles, !reach_Dir, !map_app. cbn [map fst snd app].
  rewrite (@seq_reach_after_error (map (reach_child cacheDir) before) _
             (map (reach_child cacheDir) after)
             (map (reach_child cacheDir) after') Hr).
  split; [reflexivity|].
  rewrite (@seq_reach_after_error (map (reach_child cacheDir) before) _
             (map (reach_child cacheDir) after') [] Hr).
  clear - Hr. induction (map (reach_child cacheDir) before)
    as [|[vs [e|]] rs IH]; simpl.
  - destruct (reach_child cacheDir (name, bad)) as [vs [e|]];
      [discriminate | now elim Hr].
  - discriminate.
  - destruct (seq_reach (rs ++ [reach_child cacheDir (name, bad)])).
    exact IH.
Qed.

Lemma list_stops_at_first_error_witness :
  Walk (listFiles_fn home_cache) home_cache
    (Dir None ([("a", Dir None [("b.hl", File Regular)])] ++
               ("c", Dir (Some "open c: permission denied") [])
               :: [("d.hl", File Regular)])) [] =
  Walk (listFiles_fn home_cache) home_cache
    (Dir None ([("a", Dir None [("b.hl", File Regular)])] ++
               ("c", Dir (Some "open c: permission denied") [])
               :: [])) [] /\
  snd (Walk (listFiles_fn home_cache) home_cache
         (Dir None ([("a", Dir None [("b.hl", File Regular)])] ++
                    ("c", Dir (Some "open c: permission denied") [])
                    :: [("d.hl", File Regular)])) []) <> None.
Proof.
  apply (@list_stops_at_first_error home_cache
           [("a", Dir None [("b.hl", File Regular)])] "c"
           (Dir (Some "open c: permission denied") [])
           [("d.hl", File Regular)] []).
  reflexivity.
Defined.

(** ** A cache path that is not a directory *)




(** ** One run after another *)

(** After an [init] whose clone failed, the directory it created stays.
    A second [init] without the force flag, in any environment, takes the
    directory for the repository: it reports that the repository already
    exists, calls nothing but [os.Stat], leaves the directory as it is and
    exits with status 0; and [status] then reports that the repository
    cannot be opened.  Only the force flag gets out of this state. *)
Theorem init_after_failed_clone_is_stuck `{RegexpEngine}
    env env' home w e remains :
  cache w = Absent ->
  mkdirAll_fails env = None ->
  clone_yields env = inl (e, remains) ->
  let w1 := snd (main env (Ok home) (CmdInit false) w) in
  main env' (Ok home) (CmdInit false) w1 =
  (0, {| cache := Present remains None;
         stdout := stdout w1 ++
           [String.append "Repository already exists at: "
              (show_abs (Join (Join home ".opencmd") "commands"));
            "Use -f flag to force re-clone."];
         calls := calls w1 ++ [CallStat] |}) /\
  main env' (Ok home) CmdStatus w1 =
  (0, {| cache := Present remains None;
         stdout := stdout w1 ++
                   ["Error opening repository: repository does not exist"];
         calls := calls w1 ++ [CallStat; CallPlainOpen] |}).
Proof.
  destruct w as [c out cs]. destruct env as [rm mk cl ra].
  cbn [cache mkdirAll_fails clone_yields]. intros -> -> ->.
  split.
  - run_init. rewrite <- !app_assoc. reflexivity.
  - unfold main at 1. unfold run_command at 1.
    rewrite (@checkRepository_not_repository env' _ _ remains);
      [reflexivity|].
    run_init. reflexivity.
Qed.

Lemma init_after_failed_clone_is_stuck_witness :
  main (H := LiteralRegexp.engine) (remote_at commit_b) (Ok ["home"; "user"])
    (CmdInit false)
    (snd (main (H := LiteralRegexp.engine) clone_fails (Ok ["home"; "user"])
            (CmdInit false) (fresh Absent))) =
  (0, {| cache := Present (Dir None []) None;
         stdout :=
           ["Cloning repository to: /home/user/.opencmd/commands";
            "Error cloning repository: repository not found";
            "Repository already exists at: /home/user/.opencmd/commands";
            "Use -f flag to force re-clone."];
         calls := [CallStat; CallMkdirAll; CallPlainClone; CallStat] |}).
Proof.
  apply (@init_after_failed_clone_is_stuck LiteralRegexp.engine clone_fails
           (remote_at commit_b) ["home"; "user"] (fresh Absent)
           "repository not found" (Dir None []));
    reflexivity.
Defined.

Lemma Hash_eqb_refl (h : Hash) : Hash_eqb h h = true.
Proof. apply Hash_eqb_eq. reflexivity. Qed.

(** After an [init] that cloned a repository whose HEAD is [h], [status]
    reports that the local repository is up to date when the remote
    lists, as its first branch named [main], the identifier [h], and
    reports it behind when that branch is at any other non-zero
    identifier. *)
Theorem status_after_init `{RegexpEngine} env env' home w tree repo h refs :
  cache w = Absent ->
  mkdirAll_fails env = None ->
  clone_yields env = inr (tree, repo) ->
  origin repo = None ->
  HEAD repo = Ok h ->
  remote_advertises env' = Ok refs ->
  IsZero (remoteMain refs) = false ->
  let w1 := snd (main env (Ok home) (CmdInit false) w) in
  (remoteMain refs = h ->
   main env' (Ok home) CmdStatus w1 =
   (0, {| cache := Present tree (Some repo);
          stdout := stdout w1 ++
                    ["✓ Local repository is up to date with remote."];
          calls := calls w1 ++
                   [CallStat; CallPlainOpen; CallRemote; CallRemoteList;
                    CallHead] |})) /\
  (remoteMain refs <> h ->
   In "✗ Local repository is behind remote."
      (stdout (snd (main env' (Ok home) CmdStatus w1)))).
Proof.
  intros Hc Hmk Hcl Ho Hh Hr Hz w1.
  assert (Hc1 : cache w1 = Present tree (Some repo)).
  { unfold w1. destruct w as [c out cs]. destruct env as [rm mk cl ra].
    cbn [cache mkdirAll_fails clone_yields] in *. subst. run_init.
    reflexivity. }
  unfold main, run_command.
  rewrite (@checkRepository_reports env' _ w1 tree repo refs h Hc1 Ho Hr Hh).
  unfold status_report. rewrite Hz, Hc1. split.
  - intros ->. rewrite Hash_eqb_refl. reflexivity.
  - intro Hne. destruct (Hash_eqb h (remoteMain refs)) eqn:Heq.
    + apply Hash_eqb_eq in Heq. congruence.
    + cbn [snd stdout]. apply in_or_app. right. left. reflexivity.
Qed.

Lemma status_after_init_witness :
  main (H := LiteralRegexp.engine) (remote_at commit_b) (Ok ["home"; "user"])
    CmdStatus
    (snd (main (H := LiteralRegexp.engine) (remote_at commit_b)
            (Ok ["home"; "user"]) (CmdInit false) (fresh Absent))) =
  (0, {| cache := Present scenario_tree
                    (Some {| origin := None; HEAD := Ok commit_b |});
         stdout :=
           stdout (snd (main (H := LiteralRegexp.engine) (remote_at commit_b)
                          (Ok ["home"; "user"]) (CmdInit false)
                          (fresh Absent))) ++
           ["✓ Local repository is up to date with remote."];
         calls :=
           calls (snd (main (H := LiteralRegexp.engine) (remote_at commit_b)
                         (Ok ["home"; "user"]) (CmdInit false)
                         (fresh Absent))) ++
           [CallStat; CallPlainOpen; CallRemote; CallRemoteList;
            CallHead] |}).
Proof.
  apply (@status_after_init LiteralRegexp.engine (remote_at commit_b)
           (remote_at commit_b) ["home"; "user"] (fresh Absent)
           scenario_tree {| origin := None; HEAD := Ok commit_b |} commit_b
           [{| RefName := "HEAD"; RefHash := ZeroHash |};
            {| RefName := "refs/tags/main"; RefHash := commit_a |};
            {| RefName := "refs/heads/main"; RefHash := commit_b |};
            {| RefName := "refs/heads/dev"; RefHash := commit_a |}]);
    reflexivity.
Defined.

(** ** The identifiers shown by [status] *)

(** The behind report shows only the first four bytes of each identifier:
    when local HEAD and remote [main] differ but agree on their first four
    bytes, [status] reports the repository behind and the two lines show
    the same eight characters. *)
Theorem status_short_identifiers_coincide env cacheDir w root repo refs head :
  cache w = Present root (Some repo) ->
  origin repo = None ->
  remote_advertises env = Ok refs ->
  HEAD repo = Ok head ->
  IsZero (remoteMain refs) = false ->
  head <> remoteMain refs ->
  4 <= List.length head ->
  4 <= List.length (remoteMain refs) ->
  firstn 4 head = firstn 4 (remoteMain refs) ->
  stdout (snd (checkRepository env cacheDir w)) =
  stdout w ++
  ["✗ Local repository is behind remote.";
   String.append "  Local HEAD:  " (Hash_String (firstn 4 head));
   String.append "  Remote main: " (Hash_String (firstn 4 head));
   "  Run 'schema-manager init -f' to update."].
Proof.
  intros Hc Ho Hr Hh Hz Hne Hl Hl' Hsame.
  rewrite (@checkRepository_reports env cacheDir w root repo refs head
             Hc Ho Hr Hh).
  cbn [snd stdout]. unfold status_report. rewrite Hz.
  destruct (Hash_eqb head (remoteMain refs)) eqn:Heq.
  - apply Hash_eqb_eq in Heq. contradiction.
  - rewrite !short8_first_bytes by assumption. rewrite <- Hsame. reflexivity.
Qed.

Lemma status_short_identifiers_coincide_witness :
  stdout (snd (checkRepository
                 (remote_at (firstn 4 commit_a ++ skipn 4 commit_b))
                 home_cache
                 (fresh (Present scenario_tree (Some repo_at_a))))) =
  [] ++
  ["✗ Local repository is behind remote.";
   String.append "  Local HEAD:  " (Hash_String (firstn 4 commit_a));
   String.append "  Remote main: " (Hash_String (firstn 4 commit_a));
   "  Run 'schema-manager init -f' to update."].
Proof.
  apply (@status_short_identifiers_coincide
           (remote_at (firstn 4 commit_a ++ skipn 4 commit_b)) home_cache
           (fresh (Present scenario_tree (Some repo_at_a)))
           scenario_tree repo_at_a
           [{| RefName := "HEAD"; RefHash := ZeroHash |};
            {| RefName := "refs/tags/main"; RefHash := commit_a |};
            {| RefName := "refs/heads/main";
               RefHash := firstn 4 commit_a ++ skipn 4 commit_b |};
            {| RefName := "refs/heads/dev"; RefHash := commit_a |}]
           commit_a);
    try reflexivity.
  - intro Heq. discriminate Heq.
  - simpl. lia.
  - simpl. lia.
Defined.

Lemma init_exit_status_witness :
  fst (main (H := LiteralRegexp.engine) removal_fails (Ok ["home"; "user"])
         (CmdInit true) (fresh (Present scenario_tree (Some repo_at_a)))) = 1.
Proof.
  destruct (@init_exit_status LiteralRegexp.engine removal_fails
              ["home"; "user"] true
              (fresh (Present scenario_tree (Some repo_at_a))))
    as [[Hzero|Hone] [Hiff _]].
  - destruct (Hiff Hzero) as [[Hforce _]|[Hrm _]].
    + discriminate Hforce.
    + discriminate (Hrm eq_refl).
  - exact Hone.
Defined.
